(* ===== verification/_CoqProject ===== *)
-Q . S2P
Prelude.v
StringLaws.v
JsObject.v
Parser.v
RegExpSplit.v
Registry.v
Topology.v
Render.v
Reread.v
Output.v
Program.v
