(* ===== verification/Prelude.v ===== *)
(** * A verification development for genConf.js (niryeffet/fmwgcg)

    [src/genConf.js] reads one definition file per VPN node from the
    directory [nodes], checks them, and writes WireGuard configurations
    into [conf_output]: for every node an [Interface] block and one
    [Peer] block per node it should tunnel to.  The script has four
    phases that share two JavaScript objects, [nodes] (name to attribute
    object) and the attribute object [obj] of each node, plus the console
    and a global error flag [err]:

    - DefinitionParser (lines 8-29, 39-53): split a file into lines, cut
      each at its first [=], and accumulate the values per key.
      Parser.v: [split_lines], [split_key_rest], [parse_line] (the
      per-line callback, every branch), [parse_file]; state
      [parse_state] = attribute object, console output, [err].
    - NodeRegistry (lines 31-59): the [forEach] over the directory, the
      [.wg] filter, [nodes[basename] = obj] and the required-attribute
      check.  Registry.v: [load_file], [load_nodes], [check_must_have];
      state [load_state] = [nodes], console output, [err].
    - PeerTopologyResolver (lines 74-78): the [continue] test of the
      inner loop.  Topology.v: [skip_peer], [peers_of].
    - ConfigRenderer (lines 61-92): the text of the blocks and the writes,
      one file per node or one per peer with [SplitFiles].  Render.v:
      [render_iface], [peer_section], [peer_step], [render_node],
      [render_all]; the output state is the list of writes.
    - The script as a whole: Program.v, [main], whose [outcome] is an exit
      with status -1 (line 59), an uncaught [TypeError] ([Crashed]) or a
      completed run, each with the console output and the writes.
    - The JavaScript objects themselves: JsObject.v models an object as
      its own properties in creation order, [o[k] = v] ([prop_assign],
      with the ["__proto__"] setter), [k in o] and [Object.entries]
      ([entries]: array-index keys first in numeric order, as ECMA-262
      orders them), and the names every object inherits.
    This file holds what the others share: the completions [throws]
    (expressions) and [run] (statements; an [Abort] keeps the state at the
    throw, i.e. the console output already printed), the loop combinator
    [run_fold] for [forEach] and [for ... of], the string functions of
    the JavaScript library the script calls ([trim], [split_char],
    [break_char], [take_line], [ends_with]), the hint databases and the
    tactics [js_case], [bool_hyps] and [by_decide].  StringLaws.v holds
    the laws of those string functions ([trim] is idempotent, [split_char]
    inverts [String.concat], none adds a character).  RegExpSplit.v
    models [split] with a regular expression as ECMA-262 specifies it
    ([RegExp.prototype[@@split]], [split_loop]) for any separator
    ([StickyRegExp], a record of [RegExpExec] and its law), instantiates
    it with the two separators of lines 39 and 41, and shows that the
    parser's structural [split_lines] and [split_key_rest] compute the
    same thing.

    Two files hold facts that cross the components: Reread.v reads the
    rendered Interface block back with the parser (renderer and parser
    composed), and Output.v counts and locates the writes of the
    rendering phase.

    Modelling choices.  Strings are Rocq strings of 8-bit characters,
    read as UTF-16 code units below 256; [trim] removes exactly the
    JavaScript white space and line terminators of that range.  The
    directory listing is the input: a list of (entry name, file text) in
    the order [readdirSync] returns it; the writes are the output, and
    [output_files] is the directory they leave (a later write to a name
    replaces an earlier one).  The parser is total (structural recursion
    over the lines); every loop of the script itself is a fold over a
    finite list.  The one loop that is not structural is the split
    algorithm of the JavaScript library: [split_loop] runs on fuel, and
    [split_fuel] = [2 * size + 2] iterations are enough
    ([split_loop_total]: the variant [2 * (size - q) + (1 if p < q)]
    falls at each iteration), so [regexp_split] never runs out of it;
    more fuel changes nothing ([split_loop_fuel_indep]).

    The specification side.  [attr_spec] (Parser.v) says key by key what
    a definition file means; [diagnostics], [registry_of] and
    [registry_spec] (Registry.v) what the loading phase must print and
    build; [peer_rule] (Topology.v) is the inclusion rule of §4.3 of the
    specification; [node_sections], [node_output] and [render_reference]
    (Render.v) are a loop-free description of the files each node gets.

    What is proved (the claim numbers of the manifest).
    - Validation (Program.v): any diagnostic means no file is written
      (C1); a run without diagnostics completes and writes exactly what
      the rendering reference gives for the registry of the
      specification (C2), and every node gets all its files (C13);
      unless a file uses an inherited key, every diagnostic of every file
      is printed, in order, before the exit with status -1 (C3).
    - Refinements: loading ([load_nodes_refines], C4), parsing
      ([parse_lines_refines], C5) and peer selection ([peers_of_spec],
      C6) against the specification above; the rendering loops against
      the reference ([render_node_spec], [render_all_spec], C9-C10), with
      the cumulative content of split files made explicit.
    - Topology: the decision is symmetric (C7), peering is mutual (C8).
    - Safety: rendering never throws on loaded nodes (C11).
    - Round trip (Reread.v): the Interface block, read back by the
      parser, gives exactly the node's interface attributes (C12, and
      C21 for every node of a loaded registry); its layout is that of
      §4.4 (C14).
    - Parsing: values accumulate in file order and [ConnectTo] lines
      union (C15); N lines of a key give N values (C16); flags are
      monotone (C17); every step keeps the type invariant (C18) and the
      cleanliness of keys and values (C20); the loaded registry has
      distinct names and typed, clean nodes (C19).
    - The JavaScript split (RegExpSplit.v): [split_lines] is
      [split(/\r?\n/)] run by the ECMAScript algorithm (C22), and
      [split_key_rest] the first two elements of the split at line 41,
      of which there are always two on a line with an [=] (C23).
    - Errors: a key inherited from [Object.prototype] ("constructor",
      "toString", ...) throws, so later diagnostics are never printed
      (C24, C25).
    - Output: a split node writes one [node:peer.conf] per selected
      peer and nothing else, none without peers (C26); a run writes at
      most [n * max 1 (n - 1)] files for [n] nodes, since a node is never
      its own peer (C27); a split file of [A] for [B] and the file of a
      node named [A:B] have the same name, so one configuration is lost
      (C28).
    - Termination: the loops of the script are [forEach] or
      [for ... of] over finite lists, modelled by structural recursion;
      the split loop of the library is total by [split_loop_total],
      which the equivalences C22 and C23 use.
    - The sample directories of Program.v (scenarios 1, 4 and 5 of §8,
      a colliding directory, a file with an inherited key) are the
      concrete inputs of the witnesses.

    Not modelled.  The file system beyond the listing and the writes:
    I/O errors ([readFileSync] on a directory named [x.wg] throws, a
    missing [conf_output] makes [writeFileSync] throw), the decoding of
    bytes as UTF-8, the previous content of [conf_output], and
    [path.join], which is the identity on the names used here because
    directory entries contain no slash.  Characters above U+00FF.  The
    prototype changes after an assignment to ["__proto__"] other than
    its effect on [nodes]. *)

From stdpp Require Export base list strings gmap sorting.
From Stdlib Require Export Ascii String.

Declare Scope js_scope.
Delimit Scope js_scope with js.
Open Scope js_scope.

(** ** Completions

    A JavaScript expression either yields a value or throws.  The only
    exception the modelled code can raise is a [TypeError] (spreading or
    iterating a value that is not iterable, reading a property of
    [undefined], calling a missing method), so [throws] has one error
    constructor.  Statements thread an explicit machine state; when an
    exception escapes, the state at the throw (whose console output has
    already been written) is kept in [Abort]. *)

Inductive throws (A : Type) : Type :=
  | Ret (a : A)
  | TypeError.
Arguments Ret {A} a.
Arguments TypeError {A}.

#[export] Instance throws_ret : MRet throws := @Ret.
#[export] Instance throws_bind : MBind throws :=
  fun A B (k : A -> throws B) (m : throws A) =>
    match m with Ret a => k a | TypeError => TypeError end.

Inductive run (S : Type) : Type :=
  | Continue (s : S)
  | Abort (s : S).
Arguments Continue {S} s.
Arguments Abort {S} s.

(** [lift_throw e s k]: evaluate the expression [e] inside a statement
    whose state is [s]; an exception aborts with that state. *)
Definition lift_throw {S A} (e : throws A) (s : S) (k : A -> run S) : run S :=
  match e with Ret a => k a | TypeError => Abort s end.

Notation "x <-! e @ s ;; k" := (lift_throw e s (fun x => k))
  (at level 100, e at next level, s at next level, right associativity) : js_scope.

(** A [forEach]/[for ... of] loop over a list whose body is a statement:
    the first abort ends the loop and the program. *)
Fixpoint run_fold {S X} (f : S -> X -> run S) (l : list X) (s : S) : run S :=
  match l with
  | [] => Continue s
  | x :: l' => match f s x with
               | Continue s' => run_fold f l' s'
               | Abort s' => Abort s'
               end
  end.

(** ** Characters and strings

    A JavaScript string is modelled as a Rocq [string]; each [ascii] is one
    UTF-16 code unit below 256 (the Latin-1 range), which covers every
    character the configuration vocabulary and the rendered text use. *)

(** [WhiteSpace] and [LineTerminator] code points below 256, the set that
    [String.prototype.trim] removes: TAB, LF, VT, FF, CR, SPACE, NBSP. *)
Definition js_ws (c : ascii) : bool :=
  let n := nat_of_ascii c in
  (((9 <=? n) && (n <=? 13)) || (n =? 32) || (n =? 160))%nat.

(** Line terminators below 256, the characters the regular-expression
    atom [.] does not match: LF and CR. *)
Definition js_line_terminator (c : ascii) : bool :=
  let n := nat_of_ascii c in ((n =? 10) || (n =? 13))%nat.

Fixpoint trim_start (s : string) : string :=
  match s with
  | EmptyString => EmptyString
  | String c s' => if js_ws c then trim_start s' else s
  end.

Fixpoint trim_end (s : string) : string :=
  match s with
  | EmptyString => EmptyString
  | String c s' =>
      match trim_end s' with
      | EmptyString => if js_ws c then EmptyString else String c EmptyString
      | r => String c r
      end
  end.

(** [s.trim()] *)
Definition trim (s : string) : string := trim_end (trim_start s).

(** [s.includes(c)] for a one-character search string. *)
Fixpoint includes_char (c : ascii) (s : string) : bool :=
  match s with
  | EmptyString => false
  | String d s' => bool_decide (d = c) || includes_char c s'
  end.

(** [s.split(c)] for a one-character separator: the pieces between the
    separators, always at least one (["".split(",")] is [[""]]). *)
Fixpoint split_char (sep : ascii) (s : string) : list string :=
  match s with
  | EmptyString => [EmptyString]
  | String c s' =>
      let rest := split_char sep s' in
      if bool_decide (c = sep) then EmptyString :: rest
      else match rest with
           | [] => [String c EmptyString]
           | p :: ps => String c p :: ps
           end
  end.

(** The text before and after the first occurrence of [sep], if any. *)
Fixpoint break_char (sep : ascii) (s : string) : option (string * string) :=
  match s with
  | EmptyString => None
  | String c s' =>
      if bool_decide (c = sep) then Some (EmptyString, s')
      else match break_char sep s' with
           | Some (b, a) => Some (String c b, a)
           | None => None
           end
  end.

(** The longest prefix without a line terminator: what a greedy group of
    the regular-expression atom [.] (no [s] flag) captures. *)
Fixpoint take_line (s : string) : string :=
  match s with
  | EmptyString => EmptyString
  | String c s' => if js_line_terminator c then EmptyString else String c (take_line s')
  end.

(** [s.endsWith(suf)] *)
Definition ends_with (suf s : string) : bool :=
  (String.length suf <=? String.length s)%nat &&
  bool_decide (substring (String.length s - String.length suf) (String.length suf) s = suf).

(** [s] without its last [n] characters. *)
Definition drop_end (n : nat) (s : string) : string :=
  substring 0 (String.length s - n) s.


(** ** Automation *)

Create HintDb fmwgcg discriminated.
Create Rewrite HintDb fmwgcg_rw.

(** Case analysis on the boolean tests of the model. *)
Ltac js_case := repeat (simplify_eq/=; case_bool_decide); simplify_eq/=.

(** Split the boolean conjunctions of the hypotheses into their facts. *)
Ltac bool_hyps :=
  repeat match goal with
  | H : _ && _ = true |- _ => apply andb_prop in H as [? ?]
  | H : negb _ = true |- _ => apply negb_true_iff in H
  | H : bool_decide _ = true |- _ => apply bool_decide_eq_true in H
  end.

(** ** Loops *)

Lemma run_fold_app {S X} (f : S -> X -> run S) l1 l2 s :
  run_fold f (l1 ++ l2) s =
  match run_fold f l1 s with
  | Continue s' => run_fold f l2 s'
  | Abort s' => Abort s'
  end.
Proof.
  revert s. induction l1 as [|x l1 IH]; intros s; simpl; [done|].
  destruct (f s x); [apply IH|done].
Qed.

Lemma run_fold_snoc {S X} (f : S -> X -> run S) l x s :
  run_fold f (l ++ [x]) s =
  match run_fold f l s with
  | Continue s' => f s' x
  | Abort s' => Abort s'
  end.
Proof. rewrite run_fold_app. destruct (run_fold f l s); simpl; [destruct (f s0 x)|]; done. Qed.

(** A loop whose body always continues and keeps [P] ends with [P]. *)
Lemma run_fold_invariant {S X} (P : S -> Prop) (f : S -> X -> run S) l s :
  P s ->
  (forall s x, P s -> x ∈ l -> exists s', f s x = Continue s' /\ P s') ->
  exists s', run_fold f l s = Continue s' /\ P s'.
Proof.
  revert s. induction l as [|x l IH]; intros s Hs Hf; simpl; [eauto|].
  destruct (Hf s x) as (s' & -> & Hs'); [done|set_solver|].
  apply IH; [done|]. intros s0 y ? ?. apply Hf; set_solver.
Qed.

(** ** Lists *)

Lemma bool_decide_app_nonempty {A} (l1 l2 : list A) :
  bool_decide (l1 ++ l2 <> []) = bool_decide (l1 <> []) || bool_decide (l2 <> []).
Proof. destruct l1, l2; by repeat case_bool_decide. Qed.

(** The first element of a list that fails a boolean test. *)
Lemma forallb_first_false {A} (p : A -> bool) (l : list A) :
  forallb p l = false ->
  exists pre x post, l = pre ++ x :: post /\ forallb p pre = true /\ p x = false.
Proof.
  induction l as [|y l IH]; simpl; [done|].
  destruct (p y) eqn:Hy; simpl.
  - intros H. destruct (IH H) as (pre & x & post & -> & Hpre & Hx).
    exists (y :: pre), x, post. simpl. by rewrite Hy, Hpre.
  - intros _. by exists [], y, l.
Qed.

(** A property kept by every iteration of a loop holds when the loop
    ends normally. *)
Lemma run_fold_preserves {S X} (P : S -> Prop) (f : S -> X -> run S) l s s' :
  (forall s x s', P s -> f s x = Continue s' -> P s') ->
  P s -> run_fold f l s = Continue s' -> P s'.
Proof.
  intros Hf. revert s. induction l as [|x l IH]; intros s Hs; simpl; [congruence|].
  destruct (f s x) eqn:E; [|done]. apply IH. eauto.
Qed.

(** The same, for a body that keeps [P] only on the elements of the
    list it runs over. *)
Lemma run_fold_preserves_in {S X} (P : S -> Prop) (f : S -> X -> run S) l s s' :
  (forall s x s', P s -> x ∈ l -> f s x = Continue s' -> P s') ->
  P s -> run_fold f l s = Continue s' -> P s'.
Proof.
  revert s. induction l as [|x l IH]; intros s Hf Hs; simpl; [congruence|].
  destruct (f s x) eqn:E; [|done]. apply IH.
  - intros s1 y s2 ? ?. apply Hf; [done|by right].
  - eapply Hf; [done|left|done].
Qed.

(** ** String concatenation *)

(** The concatenation of a list of strings ([l.join('')]). *)
Definition str_concat (l : list string) : string := foldr String.append EmptyString l.

(** stdpp makes [String.append] ([+:+]) opaque to [simpl]; these are its
    two defining equations. *)
Lemma append_nil (b : string) : EmptyString +:+ b = b.
Proof. reflexivity. Qed.

Lemma append_cons x (a b : string) : String x a +:+ b = String x (a +:+ b).
Proof. reflexivity. Qed.

Lemma append_assoc (a b c : string) : (a +:+ b) +:+ c = a +:+ (b +:+ c).
Proof. induction a as [|x a IH]; [done|]. by rewrite !append_cons, IH. Qed.

Lemma append_empty_r (a : string) : a +:+ EmptyString = a.
Proof. induction a as [|x a IH]; [done|]. by rewrite append_cons, IH. Qed.

Lemma str_concat_app (l1 l2 : list string) :
  str_concat (l1 ++ l2) = str_concat l1 +:+ str_concat l2.
Proof.
  induction l1 as [|s l1 IH]; [done|]. unfold str_concat in *. simpl. by rewrite IH, append_assoc.
Qed.

#[export] Hint Rewrite append_assoc append_empty_r str_concat_app : fmwgcg_rw.

(** ** Completions *)

Lemma throws_bind_Ret {A B} (m : throws A) (k : A -> throws B) b :
  (x ← m; k x) = Ret b -> exists a, m = Ret a /\ k a = Ret b.
Proof. destruct m; simpl; [eauto|done]. Qed.

Lemma throws_bind_ret_l {A B} (a : A) (k : A -> throws B) : (x ← Ret a; k x) = k a.
Proof. done. Qed.

Lemma mapM_throws_Ret {A B} (f : A -> throws B) (l : list A) :
  (forall x, x ∈ l -> exists y, f x = Ret y) -> exists ys, mapM f l = Ret ys.
Proof.
  induction l as [|x l IH]; intros Hf; [by exists []|].
  destruct (Hf x) as [y Hy]; [set_solver|].
  destruct IH as [ys Hys]; [intros z ?; apply Hf; set_solver|].
  exists (y :: ys). simpl. rewrite Hy. simpl. by rewrite Hys.
Qed.

(** A [mapM] that returns pairs every input with its output. *)
Lemma mapM_throws_Forall2 {A B} (f : A -> throws B) (l : list A) ys :
  mapM f l = Ret ys -> Forall2 (fun x y => f x = Ret y) l ys.
Proof.
  revert ys. induction l as [|x l IH]; intros ys; simpl.
  - intros [= <-]. constructor.
  - destruct (f x) as [y|] eqn:E; [|done]. simpl.
    destruct (mapM f l) as [ys'|]; [|done]. intros [= <-]. constructor; [done|]. by apply IH.
Qed.

(** Prove a decidable proposition about concrete data by evaluating its
    decision procedure. *)
Ltac by_decide :=
  match goal with |- ?P => apply (bool_decide_eq_true_1 P); vm_compute; reflexivity end.
