(* ===== verification/StringLaws.v ===== *)
(** * Laws of the string functions of the prelude

    The facts about [trim], [split_char], [break_char], [take_line] and
    [includes_char] that the round trip between the renderer and the parser
    needs: [trim] is idempotent and ignores the padding the renderer puts
    around [=]; none of the functions introduces a character its input did
    not have; [split_char] inverts [String.concat] when no piece holds the
    separator. *)

From S2P Require Import Prelude.

Section Includes.
Context (c : ascii).

Lemma includes_char_app (a b : string) :
  includes_char c (a +:+ b) = includes_char c a || includes_char c b.
Proof. induction a as [|d a IH]; [done|]. rewrite append_cons. simpl. by rewrite IH, orb_assoc. Qed.

Lemma includes_char_trim_start s : includes_char c (trim_start s) = true -> includes_char c s = true.
Proof.
  induction s as [|d s IH]; simpl; [done|].
  destruct (js_ws d); [|done]. intros H. rewrite IH by done. apply orb_true_r.
Qed.

Lemma includes_char_trim_end s : includes_char c (trim_end s) = true -> includes_char c s = true.
Proof.
  induction s as [|d s IH]; simpl; [done|].
  destruct (trim_end s) as [|e r] eqn:E.
  - destruct (js_ws d); simpl; [done|]. by rewrite orb_false_r => ->.
  - simpl. intros [Hd|Hr]%orb_true_iff; [by rewrite Hd|]. rewrite IH by done. apply orb_true_r.
Qed.

Lemma includes_char_trim s : includes_char c (trim s) = true -> includes_char c s = true.
Proof. intros H. by apply includes_char_trim_start, includes_char_trim_end. Qed.

Lemma includes_char_substring n m s :
  includes_char c (substring n m s) = true -> includes_char c s = true.
Proof.
  revert n m. induction s as [|d s IH]; intros [|n] [|m]; simpl; try done;
    [intros [Hd|Hr]%orb_true_iff; [by rewrite Hd|] | intros Hr..];
    erewrite IH by exact Hr; apply orb_true_r.
Qed.

(** [split_char] inverts [String.concat] on pieces without the separator. *)
Lemma split_char_concat (l : list string) :
  l <> [] -> Forall (fun p => includes_char c p = false) l ->
  split_char c (String.concat (String c EmptyString) l) = l.
Proof.
  assert (Hpiece : forall p rest, includes_char c p = false ->
            split_char c (p +:+ String c rest) = p :: split_char c rest).
  { induction p as [|d p IH]; intros rest Hp; simpl.
    - by rewrite bool_decide_true.
    - simpl in Hp. apply orb_false_iff in Hp as [Hd Hp].
      by rewrite Hd, IH. }
  assert (Hlast : forall p, includes_char c p = false -> split_char c p = [p]).
  { induction p as [|d p IH]; intros Hp; simpl; [done|].
    simpl in Hp. apply orb_false_iff in Hp as [Hd Hp]. by rewrite Hd, IH. }
  induction l as [|p l IH]; intros Hne Hall; [done|]. inversion Hall as [|? ? Hp Hl]; subst.
  destruct l as [|q l]; simpl; [by apply Hlast|].
  rewrite append_cons, append_nil, Hpiece by done. f_equal. by apply IH.
Qed.

Lemma split_char_nonempty s : exists x l, split_char c s = x :: l.
Proof.
  induction s as [|d s IH]; simpl; [eauto|]. destruct IH as (x & l & ->).
  case_bool_decide; eauto.
Qed.

Lemma split_char_no_sep s : Forall (fun p => includes_char c p = false) (split_char c s).
Proof.
  induction s as [|d s IH]; simpl; [by repeat constructor|].
  case_bool_decide; [by constructor|].
  destruct (split_char_nonempty s) as (p & ps & E). rewrite E in IH |- *.
  inversion IH; subst. constructor; [|done]. simpl. rewrite bool_decide_false; auto.
Qed.

End Includes.

(** The first occurrence of [sep]: what comes before it has no [sep]. *)
Lemma break_char_spec sep s k a :
  break_char sep s = Some (k, a) -> s = k +:+ String sep a /\ includes_char sep k = false.
Proof.
  revert k. induction s as [|d s IH]; intros k; simpl; [done|].
  case_bool_decide; [intros [= <- <-]; subst; done|].
  destruct (break_char sep s) as [[b a']|] eqn:E; [|done]. intros [= <- ->].
  destruct (IH b eq_refl) as [-> Hb]. rewrite append_cons. simpl.
  rewrite bool_decide_false by done. done.
Qed.

Lemma break_char_app sep k a :
  includes_char sep k = false -> break_char sep (k +:+ String sep a) = Some (k, a).
Proof.
  induction k as [|d k IH]; simpl; [by rewrite bool_decide_true|].
  intros [Hd Hk]%orb_false_iff. by rewrite Hd, IH.
Qed.

Lemma take_line_no_lf s : includes_char "010" (take_line s) = false.
Proof. induction s as [|d s IH]; simpl; [done|]. destruct (js_line_terminator d) eqn:E; [done|].
  simpl. rewrite IH, orb_false_r. apply bool_decide_false. intros ->. done. Qed.

Lemma take_line_no_cr s : includes_char "013" (take_line s) = false.
Proof. induction s as [|d s IH]; simpl; [done|]. destruct (js_line_terminator d) eqn:E; [done|].
  simpl. rewrite IH, orb_false_r. apply bool_decide_false. intros ->. done. Qed.

(** A string without line terminators is captured whole. *)
Lemma take_line_id s :
  includes_char "010" s = false -> includes_char "013" s = false -> take_line s = s.
Proof.
  induction s as [|d s IH]; simpl; [done|].
  intros [H1 H2]%orb_false_iff [H3 H4]%orb_false_iff. rewrite IH by done.
  assert (js_line_terminator d = false) as ->; [|done].
  unfold js_line_terminator. apply orb_false_iff.
  split; apply Nat.eqb_neq; intros Hn;
    [apply bool_decide_eq_false in H1 | apply bool_decide_eq_false in H3];
    apply H1 || apply H3; rewrite <- (ascii_nat_embedding d), Hn; done.
Qed.

(** ** [trim] *)

Lemma trim_start_idem s : trim_start (trim_start s) = trim_start s.
Proof. induction s as [|d s IH]; simpl; [done|]. destruct (js_ws d) eqn:E; simpl; [done|by rewrite E]. Qed.

Lemma trim_end_idem s : trim_end (trim_end s) = trim_end s.
Proof.
  induction s as [|d s IH]; simpl; [done|].
  destruct (trim_end s) as [|e r] eqn:E; simpl.
  - destruct (js_ws d) eqn:Hd; simpl; [done|]. by rewrite Hd.
  - simpl in IH. by rewrite IH.
Qed.

(** [trim_end] keeps a first character that is not white space. *)
Lemma trim_end_head d s : js_ws d = false -> exists r, trim_end (String d s) = String d r.
Proof. intros Hd. simpl. destruct (trim_end s); [rewrite Hd|]; eauto. Qed.

Lemma trim_start_head s : trim_start s = EmptyString \/
  exists d r, trim_start s = String d r /\ js_ws d = false.
Proof. induction s as [|d s IH]; simpl; [auto|]. destruct (js_ws d) eqn:E; eauto. Qed.

Lemma trim_idem s : trim (trim s) = trim s.
Proof.
  unfold trim. destruct (trim_start_head s) as [-> | (d & r & -> & Hd)]; [done|].
  destruct (trim_end_head d r Hd) as [r' E]. rewrite E. simpl. rewrite Hd.
  rewrite <- E. apply trim_end_idem.
Qed.

Lemma trim_start_app s t : trim_start s <> EmptyString -> trim_start (s +:+ t) = trim_start s +:+ t.
Proof. induction s as [|d s IH]; simpl; [done|]. destruct (js_ws d); [done|]. done. Qed.

Lemma trim_end_app_ws s t : trim_end t = EmptyString -> trim_end (s +:+ t) = trim_end s.
Proof.
  intros Ht. induction s as [|d s IH]; [done|].
  rewrite append_cons. simpl. by rewrite IH.
Qed.

(** The renderer writes [key = value]: a trimmed key followed by a space
    and a space followed by a trimmed value read back as themselves. *)
Lemma trim_pad_l s : trim s = s -> trim (String " " s) = s.
Proof. done. Qed.

Lemma trim_pad_r s : trim s = s -> trim (s +:+ " ") = s.
Proof.
  intros Hs. destruct (decide (trim_start s = EmptyString)) as [E|E].
  - unfold trim in Hs. rewrite E in Hs. simpl in Hs. subst s. done.
  - unfold trim. rewrite trim_start_app by done. rewrite trim_end_app_ws by done. done.
Qed.

#[export] Hint Rewrite trim_idem includes_char_app : fmwgcg_rw.

Lemma includes_char_split c sep s p :
  p ∈ split_char sep s -> includes_char c p = true -> includes_char c s = true.
Proof.
  revert p. induction s as [|d s IH]; intros p; simpl.
  - intros ->%list_elem_of_singleton. done.
  - destruct (split_char_nonempty sep s) as (q & ps & E). rewrite E in IH |- *.
    case_bool_decide.
    + intros [->|Hp]%elem_of_cons; [done|]. intros Hc. rewrite (IH p) by set_solver. apply orb_true_r.
    + intros [->|Hp]%elem_of_cons.
      * simpl. intros [Hd|Hq]%orb_true_iff; [by rewrite Hd|]. rewrite (IH q) by set_solver. apply orb_true_r.
      * intros Hc. rewrite (IH p) by set_solver. apply orb_true_r.
Qed.

(** ** Positions in an appended string *)

Lemma string_length_app x y : String.length (x +:+ y) = String.length x + String.length y.
Proof. induction x as [|c x IH]; [done|]. rewrite append_cons. simpl. by rewrite IH. Qed.

Lemma string_get_app_r x y j : String.get (String.length x + j) (x +:+ y) = String.get j y.
Proof. induction x as [|c x IH]; [done|]. rewrite append_cons. exact IH. Qed.

Lemma substring_app_r x y n m : substring (String.length x + n) m (x +:+ y) = substring n m y.
Proof. induction x as [|c x IH]; [done|]. rewrite append_cons. exact IH. Qed.

Lemma substring_app_l x y m : substring 0 (String.length x + m) (x +:+ y) = x +:+ substring 0 m y.
Proof.
  induction x as [|c x IH]; [done|]. rewrite !append_cons. simpl. by rewrite IH.
Qed.

Lemma substring_full s : substring 0 (String.length s) s = s.
Proof. induction s as [|c s IH]; simpl; [done|]. by rewrite IH. Qed.
