(* ===== verification/JsObject.v ===== *)
(** * JsObject: the JavaScript objects genConf.js uses as dictionaries

    genConf.js keeps every node's attributes in a plain object ([obj],
    line 38) and all nodes in another ([nodes], line 31).  The program
    reads them with [o[k]] and [k in o], writes them with [o[k] = v], and
    iterates them with [Object.entries] (lines 61, 67, 74).  This file
    models such an object as its list of own properties in creation order
    and gives:
    - [prop_get], [prop_has], [prop_set], [prop_assign]: the reads and
      writes, with the special case of the key ["__proto__"], whose
      assignment changes the prototype instead of creating a property;
    - [entries]: [Object.entries], which lists array-index keys first in
      ascending numeric order and the other keys in creation order
      (ECMA-262 [OrdinaryOwnPropertyKeys]);
    - [object_prototype_keys]: the properties every object inherits;
    - the laws of these operations that the parser, the topology and the
      renderer rely on. *)

From S2P Require Import Prelude.

(** Own enumerable data properties in creation order. *)
Abbreviation jsobj V := (list (string * V)).

Section Props.
Context {V : Type}.

(** [o[k]] for an own property; [None] when [o] has no own property [k]. *)
Fixpoint prop_get (o : jsobj V) (k : string) : option V :=
  match o with
  | [] => None
  | (k', v) :: o' => if bool_decide (k' = k) then Some v else prop_get o' k
  end.

(** [k in o] for a key that is not inherited. *)
Definition prop_has (o : jsobj V) (k : string) : bool :=
  match prop_get o k with Some _ => true | None => false end.

(** [o[k] = v] for an ordinary key: an existing property keeps its place
    in the creation order, a new one goes last. *)
Fixpoint prop_set (o : jsobj V) (k : string) (v : V) : jsobj V :=
  match o with
  | [] => [(k, v)]
  | (k', v') :: o' =>
      if bool_decide (k' = k) then (k', v) :: o' else (k', v') :: prop_set o' k v
  end.

(** [o[k] = v] for any key: the setter inherited from [Object.prototype]
    handles ["__proto__"], which never becomes an own property. *)
Definition prop_assign (o : jsobj V) (k : string) (v : V) : jsobj V :=
  if bool_decide (k = "__proto__") then o else prop_set o k v.
End Props.

(** The names [Object.prototype] provides to every object. *)
Definition object_prototype_keys : list string :=
  ["constructor"; "__defineGetter__"; "__defineSetter__"; "hasOwnProperty";
   "__lookupGetter__"; "__lookupSetter__"; "isPrototypeOf";
   "propertyIsEnumerable"; "toString"; "valueOf"; "__proto__";
   "toLocaleString"].

(** ** Array indices and [Object.entries] *)

Definition digit_value (c : ascii) : option N :=
  let n := N_of_ascii c in
  if ((48 <=? n) && (n <=? 57))%N then Some (n - 48)%N else None.

Fixpoint digits_value (acc : N) (s : string) : option N :=
  match s with
  | EmptyString => Some acc
  | String c s' =>
      match digit_value c with
      | Some d => digits_value (10 * acc + d)%N s'
      | None => None
      end
  end.

(** [k] is an array index: the canonical decimal form of an integer below
    [2^32 - 1] (["0"], or digits without a leading zero). *)
Definition is_array_index (k : string) : bool :=
  match k with
  | EmptyString => false
  | String c rest =>
      match digits_value 0 k with
      | Some n => (n <? 4294967295)%N && (bool_decide (c <> "0"%char) || bool_decide (rest = ""))
      | None => false
      end
  end.

Definition index_value (k : string) : N :=
  match digits_value 0 k with Some n => n | None => 0%N end.

Definition index_le {V} (p q : string * V) : Prop := (index_value p.1 <= index_value q.1)%N.

#[export] Instance index_le_dec {V} (p q : string * V) : Decision (index_le p q).
Proof. unfold index_le. apply _. Defined.

(** [Object.entries(o)]: integer keys ascending, then the rest in
    creation order. *)
Definition entries {V} (o : jsobj V) : jsobj V :=
  merge_sort index_le (filter (fun kv => is_array_index kv.1 = true) o)
  ++ filter (fun kv => is_array_index kv.1 = false) o.

(** ** Laws *)

Section PropLaws.
Context {V : Type}.
Implicit Types (o : jsobj V) (k : string) (v : V).

Lemma prop_get_set_eq o k v : prop_get (prop_set o k v) k = Some v.
Proof. induction o as [|[k' v'] o IH]; simpl; js_case; auto. Qed.

Lemma prop_get_set_ne o k k' v : k <> k' -> prop_get (prop_set o k v) k' = prop_get o k'.
Proof. intros Hne. induction o as [|[k'' v'] o IH]; simpl; js_case; auto. Qed.

Lemma prop_get_set o k k' v :
  prop_get (prop_set o k v) k' = if bool_decide (k' = k) then Some v else prop_get o k'.
Proof. case_bool_decide; subst; auto using prop_get_set_eq, prop_get_set_ne. Qed.

Lemma prop_get_elem_of o k v : prop_get o k = Some v -> (k, v) ∈ o.
Proof.
  induction o as [|[k' v'] o IH]; simpl; [done|].
  intros H; js_case; [left|right; auto].
Qed.

Lemma prop_get_None o k : prop_get o k = None <-> k ∉ o.*1.
Proof.
  induction o as [|[k' v'] o IH]; simpl; [set_solver|].
  js_case; rewrite ?elem_of_cons; [naive_solver|rewrite IH; naive_solver].
Qed.

Lemma prop_has_spec o k : prop_has o k = true <-> k ∈ o.*1.
Proof.
  unfold prop_has. destruct (prop_get o k) eqn:E.
  - split; [intros _|done]. apply prop_get_elem_of in E.
    apply list_elem_of_fmap. by exists (k, v).
  - apply prop_get_None in E. naive_solver.
Qed.

Lemma elem_of_prop_get o k v : NoDup o.*1 -> (k, v) ∈ o -> prop_get o k = Some v.
Proof.
  induction o as [|[k' v'] o IH]; simpl; [set_solver|].
  rewrite NoDup_cons, elem_of_cons. intros [Hk Hnd] [Heq|Hin].
  - simplify_eq. by rewrite bool_decide_true.
  - case_bool_decide; [subst|auto]. destruct Hk. apply list_elem_of_fmap. by exists (k, v).
Qed.

Lemma prop_set_keys_old o k v : k ∈ o.*1 -> (prop_set o k v).*1 = o.*1.
Proof.
  induction o as [|[k' v'] o IH]; [set_solver|]. cbn [prop_set].
  rewrite fmap_cons, elem_of_cons. intros Hk.
  case_bool_decide; rewrite !fmap_cons; [done|]. rewrite IH; [done|naive_solver].
Qed.

Lemma prop_set_keys_new o k v : k ∉ o.*1 -> (prop_set o k v).*1 = o.*1 ++ [k].
Proof.
  induction o as [|[k' v'] o IH]; [done|]. cbn [prop_set].
  rewrite fmap_cons, not_elem_of_cons. intros [Hne Hk].
  rewrite bool_decide_false by done. rewrite !fmap_cons, IH by done. done.
Qed.

Lemma elem_of_prop_set o k v kv : kv ∈ prop_set o k v -> kv = (k, v) \/ kv ∈ o.
Proof.
  induction o as [|[k' v'] o IH]; simpl; [set_solver|].
  case_bool_decide; subst; rewrite !elem_of_cons; [set_solver|].
  intros [->|Hin]; [by right; left|]. destruct (IH Hin); [by left|by right; right].
Qed.

Lemma elem_of_prop_assign o k v kv : kv ∈ prop_assign o k v -> kv = (k, v) \/ kv ∈ o.
Proof. unfold prop_assign. case_bool_decide; [by right|apply elem_of_prop_set]. Qed.

Lemma prop_set_NoDup o k v : NoDup o.*1 -> NoDup (prop_set o k v).*1.
Proof.
  intros Hnd. destruct (decide (k ∈ o.*1)).
  - by rewrite prop_set_keys_old.
  - rewrite prop_set_keys_new by done. apply NoDup_app. split; [done|].
    split; [set_solver|]. apply NoDup_singleton.
Qed.

Lemma prop_assign_NoDup o k v : NoDup o.*1 -> NoDup (prop_assign o k v).*1.
Proof. unfold prop_assign. js_case; auto using prop_set_NoDup. Qed.

Lemma entries_Permutation o : entries o ≡ₚ o.
Proof.
  unfold entries. rewrite merge_sort_Permutation.
  induction o as [|[k v] o IH]; [done|]. rewrite !filter_cons; simpl.
  destruct (is_array_index k); rewrite ?decide_True, ?decide_False by done; simpl.
  - by rewrite IH.
  - rewrite <- Permutation_middle. by rewrite IH.
Qed.

Lemma elem_of_entries o kv : kv ∈ entries o <-> kv ∈ o.
Proof. apply elem_of_Permutation_proper, entries_Permutation. Qed.

Lemma entries_NoDup o : NoDup o.*1 -> NoDup (entries o).*1.
Proof. intros H. by rewrite (entries_Permutation o). Qed.

(** With distinct keys, a lookup does not depend on the order of the
    properties. *)
Lemma prop_get_Permutation o o' k : NoDup o.*1 -> o ≡ₚ o' -> prop_get o k = prop_get o' k.
Proof.
  intros Hnd Hp. assert (Hnd' : NoDup o'.*1) by by rewrite <- Hp.
  destruct (prop_get o k) as [v|] eqn:E.
  - symmetry. apply elem_of_prop_get; [done|]. rewrite <- Hp. by apply prop_get_elem_of.
  - symmetry. apply prop_get_None. rewrite <- Hp. by apply prop_get_None.
Qed.

Lemma prop_get_entries o k : NoDup o.*1 -> prop_get (entries o) k = prop_get o k.
Proof. intros Hnd. symmetry. apply prop_get_Permutation; [done|]. by rewrite entries_Permutation. Qed.

(** Without integer-like keys, [Object.entries] is the creation order. *)
Lemma entries_no_index o :
  Forall (fun kv => is_array_index kv.1 = false) o -> entries o = o.
Proof.
  unfold entries. intros Hall.
  assert (filter (fun kv => is_array_index kv.1 = true) o = [] /\
          filter (fun kv => is_array_index kv.1 = false) o = o) as [-> ->]; [|done].
  induction Hall as [|[k v] o Hk Hall [IH1 IH2]]; [done|].
  rewrite !filter_cons, decide_False, decide_True by (simpl in *; congruence).
  by rewrite IH1, IH2.
Qed.
End PropLaws.

(** An assignment to a key that is not inherited creates or updates an
    own property. *)
Lemma prop_assign_ordinary {V} (o : jsobj V) k v :
  k ∉ object_prototype_keys -> prop_assign o k v = prop_set o k v.
Proof.
  intros Hk. unfold prop_assign. rewrite bool_decide_false; [done|].
  intros ->. apply Hk. unfold object_prototype_keys. set_solver.
Qed.

Lemma prop_assign_not_proto {V} (o : jsobj V) k v :
  k <> "__proto__" -> prop_assign o k v = prop_set o k v.
Proof. intros Hk. unfold prop_assign. by rewrite bool_decide_false. Qed.

#[export] Hint Resolve prop_set_NoDup prop_assign_NoDup entries_NoDup : fmwgcg.
#[export] Hint Rewrite @prop_get_set_eq : fmwgcg_rw.

Lemma prop_set_new {V} (o : jsobj V) k v : k ∉ o.*1 -> prop_set o k v = o ++ [(k, v)].
Proof.
  induction o as [|[k' v'] o IH]; [done|]. cbn [prop_set]. rewrite fmap_cons, not_elem_of_cons.
  intros [Hne Hk]. rewrite bool_decide_false by done. simpl. by rewrite IH.
Qed.

(** ** Array indices are 32-bit *)

(** The boundary: ["4294967294"] is an array index, ["4294967295"] is
    not and keeps its creation place. *)
Example entries_index_boundary :
  (entries [("4294967295", 1); ("b", 2); ("4294967294", 3); ("10", 4); ("2", 5); ("02", 6)]).*1 =
  ["2"; "10"; "4294967294"; "4294967295"; "b"; "02"].
Proof. vm_compute. reflexivity. Qed.
