(* ===== verification/Parser.v ===== *)
(** * Parser: the DefinitionParser of genConf.js (lines 8-29 and 39-53)

    One definition file is split into lines ([split_lines], line 39); a
    line with an [=] is cut at the first one into a key and the rest of the
    line ([split_key_rest], line 41); the trimmed key selects what happens
    to the node's attribute object ([parse_line], lines 42-51):
    - an unknown key is reported on the console and sets the global error
      flag, and is then stored like any other key;
    - [ConnectTo] appends the comma-separated, trimmed names;
    - [DefaultRoute] and [SplitFiles] become [true] when the trimmed rest is
      exactly ["true"] and are otherwise ignored;
    - every other key appends its trimmed rest.
    The appends read the current value with [obj[key] || []] and spread it;
    for a key that [obj] inherits from [Object.prototype] (e.g.
    ["constructor"]) that value is a function, the spread throws a
    [TypeError] and the whole program stops ([spread_or_empty]).

    The state of this phase ([parse_state]) is the attribute object being
    filled, the console output so far and the global error flag [err]. *)

From S2P Require Import Prelude StringLaws JsObject.

(** ** Data *)

(** The values an attribute object holds: an array of strings, or [true]
    for the two flags. *)
Inductive jsval : Type :=
  | VList (l : list string)
  | VTrue.

#[export] Instance jsval_eq_dec : EqDecision jsval.
Proof. solve_decision. Defined.

Abbreviation nodeobj := (jsobj jsval).

Definition allowed_keys : list string :=
  ["Address"; "ConnectTo"; "DefaultRoute"; "DNS"; "Endpoint"; "ListenPort";
   "MTU"; "Network"; "PersistentKeepalive"; "PostDown"; "PostUp"; "PreDown";
   "PreUp"; "PrivateKey"; "PublicKey"; "SplitFiles"; "Table"].

Definition must_have : list string := ["Address"; "PublicKey"].

Definition exclude_interface : list string :=
  ["ConnectTo"; "DefaultRoute"; "Endpoint"; "Network"; "PublicKey";
   "PersistentKeepalive"; "SplitFiles"].

(** ** Lines *)

(** Apply [f] to every element but the last. *)
Fixpoint map_but_last {A} (f : A -> A) (l : list A) : list A :=
  match l with
  | [] => []
  | [x] => [x]
  | x :: l' => f x :: map_but_last f l'
  end.

(** [s] without one trailing CR. *)
Fixpoint drop_cr (s : string) : string :=
  match s with
  | EmptyString => EmptyString
  | String c EmptyString => if bool_decide (c = "013"%char) then EmptyString else s
  | String c s' => String c (drop_cr s')
  end.

(** [content.split(/\r?\n/)]: split at every LF; a piece followed by an LF
    loses one trailing CR (the separator was CR LF); the last piece keeps
    its CR. *)
Definition split_lines (content : string) : list string :=
  map_but_last drop_cr (split_char "010" content).

(** [line.includes('=')] and [let [key, rest] = line.split(re)] where [re]
    is an [=] followed by a greedy capture group of [.] atoms:
    [None] when the line has no [=]; otherwise the text before the first
    [=] and what the greedy group captures after it, which stops at a line
    terminator. *)
Definition split_key_rest (line : string) : option (string * string) :=
  match break_char "=" line with
  | Some (key, after) => Some (key, take_line after)
  | None => None
  end.

(** ** The parse state and one line *)

Record parse_state : Type := {
  ps_obj : nodeobj;
  ps_log : list string;
  ps_err : bool
}.

(** [console.warn(msg); err = true;] *)
Definition ps_warn (msg : string) (st : parse_state) : parse_state :=
  {| ps_obj := ps_obj st; ps_log := ps_log st ++ [msg]; ps_err := true |}.

Definition ps_set (key : string) (v : jsval) (st : parse_state) : parse_state :=
  {| ps_obj := prop_assign (ps_obj st) key v; ps_log := ps_log st; ps_err := ps_err st |}.

(** [[...(obj[key] || [])]]: the stored array, [[]] for a missing key, and a
    [TypeError] when the value is not iterable ([true], or a function
    inherited from [Object.prototype]). *)
Definition spread_or_empty (o : nodeobj) (key : string) : throws (list string) :=
  match prop_get o key with
  | Some (VList l) => Ret l
  | Some VTrue => TypeError
  | None => if bool_decide (key ∈ object_prototype_keys) then TypeError else Ret []
  end.

Definition is_flag_key (key : string) : bool :=
  bool_decide (key = "DefaultRoute") || bool_decide (key = "SplitFiles").

(** The body of the per-line callback, lines 40-52. *)
Definition parse_line (file : string) (st : parse_state) (line : string) : run parse_state :=
  match split_key_rest line with
  | None => Continue st
  | Some (rawkey, rest) =>
      let key := trim rawkey in
      let st := if bool_decide (key ∈ allowed_keys) then st
                else ps_warn (key +:+ " in " +:+ file +:+ " is unfamiliar") st in
      if bool_decide (key = "ConnectTo") then
        cur <-! spread_or_empty (ps_obj st) key @ st ;;
        Continue (ps_set key (VList (cur ++ map trim (split_char "," rest))) st)
      else if is_flag_key key then
        if bool_decide (trim rest = "true") then Continue (ps_set key VTrue st)
        else Continue st
      else
        cur <-! spread_or_empty (ps_obj st) key @ st ;;
        Continue (ps_set key (VList (cur ++ [trim rest])) st)
  end.

(** The state when a file starts: [obj = {}], and the console output and
    error flag left by the files before. *)
Definition ps_init (log : list string) (err : bool) : parse_state :=
  {| ps_obj := []; ps_log := log; ps_err := err |}.

(** All lines of one file. *)
Definition parse_file (file content : string) (log : list string) (err : bool) : run parse_state :=
  run_fold (parse_line file) (split_lines content) (ps_init log err).

(** ** The per-key specification

    What §4.1 of the specification says a definition file means, key by
    key: the value of key [k] depends only on the rests of the lines whose
    trimmed key is [k], in file order. *)

(** The trimmed key and the rest of a line that has an [=]. *)
Definition line_entry (line : string) : option (string * string) :=
  match split_key_rest line with
  | Some (k, r) => Some (trim k, r)
  | None => None
  end.

Definition rest_for (k : string) (line : string) : option string :=
  match line_entry line with
  | Some (k', r) => if bool_decide (k' = k) then Some r else None
  | None => None
  end.

(** The rests of the lines with key [k], in file order. *)
Definition rests_of (k : string) (lines : list string) : list string :=
  omap (rest_for k) lines.

Definition connect_names (r : string) : list string := map trim (split_char "," r).

Definition attr_spec (k : string) (lines : list string) : option jsval :=
  let rs := rests_of k lines in
  if bool_decide (k = "ConnectTo") then
    match rs with [] => None | _ => Some (VList (List.concat (map connect_names rs))) end
  else if is_flag_key k then
    if existsb (fun r => bool_decide (trim r = "true")) rs then Some VTrue else None
  else
    match rs with [] => None | _ => Some (VList (map trim rs)) end.

(** The diagnostics of unknown keys, in file order. *)
Definition unknown_warning (file : string) (line : string) : option string :=
  match line_entry line with
  | Some (k, _) => if bool_decide (k ∈ allowed_keys) then None
                   else Some (k +:+ " in " +:+ file +:+ " is unfamiliar")
  | None => None
  end.

Definition unknown_warnings (file : string) (lines : list string) : list string :=
  omap (unknown_warning file) lines.

(** No line uses a key inherited from [Object.prototype] (decidable, so
    that it evaluates on concrete files). *)
Definition proto_free_line (line : string) : bool :=
  match line_entry line with
  | Some (k, _) => bool_decide (k ∉ object_prototype_keys)
  | None => true
  end.

Definition proto_free (lines : list string) : Prop := forallb proto_free_line lines = true.

(** The strings stored under [k] ([[]] for a missing key or a flag). *)
Definition values_of (v : option jsval) : list string :=
  match v with Some (VList l) => l | _ => [] end.

(** The value one more line with key [k] and rest [r] leaves, given the
    value [cur] before it. *)
Definition attr_step (k : string) (cur : option jsval) (r : string) : option jsval :=
  let old := values_of cur in
  if bool_decide (k = "ConnectTo") then Some (VList (old ++ connect_names r))
  else if is_flag_key k then
    if bool_decide (trim r = "true") then Some VTrue else cur
  else Some (VList (old ++ [trim r])).

(** ** Lemmas on the specification *)

Lemma rests_of_snoc k lines l :
  rests_of k (lines ++ [l]) = rests_of k lines ++ option_list (rest_for k l).
Proof. unfold rests_of. rewrite omap_app. simpl. by destruct (rest_for k l). Qed.

Lemma attr_spec_snoc k lines l :
  attr_spec k (lines ++ [l]) =
  match rest_for k l with
  | Some r => attr_step k (attr_spec k lines) r
  | None => attr_spec k lines
  end.
Proof.
  unfold attr_spec, attr_step. rewrite rests_of_snoc.
  destruct (rest_for k l) as [r|]; simpl; [|by rewrite app_nil_r].
  destruct (rests_of k lines) as [|r0 rs]; simpl;
    repeat case_bool_decide; simpl; try done;
    destruct (is_flag_key k); simpl; rewrite ?existsb_app; simpl;
    repeat case_bool_decide; rewrite ?orb_true_r, ?orb_false_r; try done;
    try by rewrite ?app_nil_r.
  all: rewrite ?List.map_app, ?List.concat_app; simpl; by rewrite ?app_nil_r, ?app_assoc.
Qed.

Lemma attr_spec_not_VTrue k lines :
  is_flag_key k = false -> attr_spec k lines <> Some VTrue.
Proof.
  intros Hk. unfold attr_spec. rewrite Hk.
  case_bool_decide; destruct (rests_of k lines); done.
Qed.

(** ** One line *)

Lemma spread_or_empty_ok o k :
  k ∉ object_prototype_keys -> prop_get o k <> Some VTrue ->
  spread_or_empty o k = Ret (values_of (prop_get o k)).
Proof.
  intros Hk Hv. unfold spread_or_empty.
  destruct (prop_get o k) as [[l|]|]; [done|done|]. by rewrite bool_decide_false.
Qed.

Lemma parse_line_no_entry file st line :
  line_entry line = None -> parse_line file st line = Continue st.
Proof. unfold line_entry, parse_line. by destruct (split_key_rest line) as [[]|]. Qed.

(** A line with key [k] and rest [r] changes the value of [k] by
    [attr_step], reports [k] when it is unknown, and keeps the rest. *)
Lemma parse_line_entry file st line k r :
  line_entry line = Some (k, r) ->
  k ∉ object_prototype_keys ->
  (is_flag_key k = false -> prop_get (ps_obj st) k <> Some VTrue) ->
  exists st',
    parse_line file st line = Continue st' /\
    (forall k', prop_get (ps_obj st') k' =
       if bool_decide (k' = k) then attr_step k (prop_get (ps_obj st) k) r
       else prop_get (ps_obj st) k') /\
    ps_log st' = ps_log st ++ option_list (unknown_warning file line) /\
    ps_err st' = ps_err st || negb (bool_decide (k ∈ allowed_keys)).
Proof.
  intros Hl Hk Hty. unfold unknown_warning. rewrite Hl.
  unfold line_entry in Hl. unfold parse_line.
  destruct (split_key_rest line) as [[k0 r0]|]; simplify_eq.
  set (st1 := if bool_decide (trim k0 ∈ allowed_keys) then st else ps_warn _ st).
  assert (ps_obj st1 = ps_obj st /\
          ps_log st1 = ps_log st ++ option_list (if bool_decide (trim k0 ∈ allowed_keys) then None
                         else Some (trim k0 +:+ " in " +:+ file +:+ " is unfamiliar")) /\
          ps_err st1 = ps_err st || negb (bool_decide (trim k0 ∈ allowed_keys)))
    as (Ho & Hlog & Herr).
  { subst st1. case_bool_decide; simpl; by rewrite ?app_nil_r, ?orb_false_r, ?orb_true_r. }
  clearbody st1. unfold ps_set, attr_step.
  assert (Hsp : is_flag_key (trim k0) = false ->
                spread_or_empty (ps_obj st1) (trim k0) =
                Ret (values_of (prop_get (ps_obj st) (trim k0)))).
  { intros Hf. rewrite Ho. by apply spread_or_empty_ok, Hty. }
  destruct (bool_decide (trim k0 = "ConnectTo")) eqn:Hc;
    [|destruct (is_flag_key (trim k0)) eqn:Hf; [destruct (bool_decide (trim r = "true"))|]].
  all: try (rewrite Hsp; [|apply bool_decide_eq_true in Hc; by rewrite Hc]).
  all: try (rewrite Hsp; [|done]).
  all: eexists; split; [reflexivity|]; simpl; rewrite ?Ho; split; [|split; [apply Hlog|apply Herr]].
  all: intros k'; rewrite ?prop_assign_ordinary, ?prop_get_set by done.
  all: destruct (decide (k' = trim k0));
         [subst; rewrite bool_decide_true by done|rewrite bool_decide_false by done]; done.
Qed.

(** Property keys stay distinct. *)
Lemma parse_line_NoDup file st line st' :
  NoDup (ps_obj st).*1 -> parse_line file st line = Continue st' -> NoDup (ps_obj st').*1.
Proof.
  unfold parse_line, lift_throw, ps_set, ps_warn.
  destruct (split_key_rest line) as [[k r]|]; [|congruence].
  intros Hnd. repeat (case_bool_decide || case_match); simpl in *; intros; simplify_eq/=;
    auto using prop_assign_NoDup.
Qed.

Lemma parse_lines_NoDup file lines log err st :
  run_fold (parse_line file) lines (ps_init log err) = Continue st -> NoDup (ps_obj st).*1.
Proof.
  apply (run_fold_preserves (fun s => NoDup (ps_obj s).*1)); [|constructor].
  intros s x s'. apply parse_line_NoDup.
Qed.

(** ** Refinement of the per-key specification *)

Lemma parse_lines_correct file lines log err :
  proto_free lines ->
  exists st,
    run_fold (parse_line file) lines (ps_init log err) = Continue st /\
    (forall k, prop_get (ps_obj st) k = attr_spec k lines) /\
    ps_log st = log ++ unknown_warnings file lines /\
    ps_err st = err || bool_decide (unknown_warnings file lines <> []).
Proof.
  induction lines as [|l lines IH] using rev_ind; intros Hpf.
  { eexists; split; [reflexivity|]. split.
    - intros k. unfold attr_spec. simpl. case_bool_decide; [done|by destruct (is_flag_key k)].
    - simpl. by rewrite app_nil_r, orb_false_r. }
  unfold proto_free in Hpf. rewrite forallb_app in Hpf.
  apply andb_prop in Hpf as [Hpf Hl1]. simpl in Hl1. rewrite andb_true_r in Hl1.
  destruct (IH Hpf) as (st & Hrun & Hobj & Hlog & Herr).
  rewrite run_fold_snoc, Hrun. unfold unknown_warnings in *. rewrite omap_app.
  destruct (line_entry l) as [[k r]|] eqn:El.
  - assert (Hk : k ∉ object_prototype_keys).
    { unfold proto_free_line in Hl1. rewrite El in Hl1. by apply bool_decide_eq_true in Hl1. }
    assert (Hty : is_flag_key k = false -> prop_get (ps_obj st) k <> Some VTrue)
      by (intros Hf; rewrite Hobj; by apply attr_spec_not_VTrue).
    destruct (parse_line_entry file st l k r El Hk Hty) as (st' & -> & Ho & Hl & He).
    eexists; split; [reflexivity|]. split; [|split].
    + intros k'. rewrite Ho, attr_spec_snoc, Hobj. unfold rest_for. rewrite El.
      destruct (decide (k' = k)); [subst; by rewrite !bool_decide_true|by rewrite !bool_decide_false].
    + rewrite Hl, Hlog, <- app_assoc. simpl. by destruct (unknown_warning file l).
    + rewrite He, Herr. simpl. unfold unknown_warning. rewrite El.
      destruct (decide (k ∈ allowed_keys)) as [Ha|Ha];
        [rewrite !(bool_decide_true _ Ha)|rewrite !(bool_decide_false _ Ha)]; simpl.
      * by rewrite app_nil_r, orb_false_r.
      * rewrite orb_true_r, bool_decide_true; [by rewrite orb_true_r|].
        intros Hnil. apply app_eq_nil in Hnil. naive_solver.
  - rewrite parse_line_no_entry by done.
    assert (Hu : unknown_warning file l = None) by (unfold unknown_warning; by rewrite El).
    eexists; split; [reflexivity|]. simpl. rewrite Hu, !app_nil_r. split; [|done].
    intros k'. rewrite attr_spec_snoc, Hobj. unfold rest_for. by rewrite El.
Qed.

(** C5 (refinement): Parsing a file whose keys are not inherited names always finishes,
    every attribute then holds exactly what [attr_spec] says, every
    unknown key was reported once per line in file order, and the error
    flag is set exactly when there was one. *)
Theorem parse_lines_refines file lines log err :
  proto_free lines ->
  exists st,
    run_fold (parse_line file) lines (ps_init log err) = Continue st /\
    (forall k, prop_get (ps_obj st) k = attr_spec k lines) /\
    ps_log st = log ++ unknown_warnings file lines /\
    ps_err st = err || bool_decide (unknown_warnings file lines <> []).
Proof. by eapply parse_lines_correct. Qed.

Lemma parse_lines_refines_witness :
  proto_free ["Address = 10.0.0.1/32"; "Foo = 1"] /\
  exists st,
    run_fold (parse_line "n.wg") ["Address = 10.0.0.1/32"; "Foo = 1"] (ps_init [] false)
      = Continue st /\
    (forall k, prop_get (ps_obj st) k = attr_spec k ["Address = 10.0.0.1/32"; "Foo = 1"]) /\
    ps_log st = [] ++ unknown_warnings "n.wg" ["Address = 10.0.0.1/32"; "Foo = 1"] /\
    ps_err st = false || bool_decide (unknown_warnings "n.wg" ["Address = 10.0.0.1/32"; "Foo = 1"] <> []).
Proof. split; [vm_compute; reflexivity|]. apply parse_lines_refines. vm_compute. reflexivity. Defined.


(** ** Consequences: accumulation, union, flags, inherited keys *)

Lemma rests_of_app k l1 l2 : rests_of k (l1 ++ l2) = rests_of k l1 ++ rests_of k l2.
Proof. apply omap_app. Qed.

Lemma values_attr_spec k lines :
  is_flag_key k = false ->
  values_of (attr_spec k lines) =
  if bool_decide (k = "ConnectTo") then List.concat (map connect_names (rests_of k lines))
  else map trim (rests_of k lines).
Proof.
  intros Hf. unfold attr_spec. rewrite Hf. by case_bool_decide; destruct (rests_of k lines).
Qed.

Lemma proto_free_app l1 l2 : proto_free (l1 ++ l2) <-> proto_free l1 /\ proto_free l2.
Proof. unfold proto_free. by rewrite forallb_app, andb_true_iff. Qed.

Lemma rests_of_inherited k lines :
  proto_free lines -> k ∈ object_prototype_keys -> rests_of k lines = [].
Proof.
  intros Hpf Hk. induction lines as [|l lines IH]; [done|].
  apply (proto_free_app [l] lines) in Hpf as [Hl Hpf].
  change (l :: lines) with ([l] ++ lines). rewrite rests_of_app, IH by done.
  unfold proto_free, proto_free_line in Hl. unfold rests_of, rest_for. simpl in *.
  destruct (line_entry l) as [[k' r]|]; [|done]. rewrite andb_true_r in Hl.
  apply bool_decide_eq_true in Hl. case_bool_decide; [subst; done|done].
Qed.

Lemma attr_spec_inherited k lines :
  proto_free lines -> k ∈ object_prototype_keys -> attr_spec k lines = None.
Proof.
  intros Hpf Hk. unfold attr_spec. rewrite rests_of_inherited by done.
  by case_bool_decide; [|destruct (is_flag_key k)].
Qed.

Lemma inherited_not_allowed k : k ∈ object_prototype_keys -> k ∉ allowed_keys.
Proof. unfold object_prototype_keys, allowed_keys. set_solver. Qed.

(** C15 (functional): values accumulate.  For every key other than the two
    flags, the strings stored after parsing [pre ++ post] are those stored
    after parsing [pre] followed by those stored after parsing [post]:
    repeated lines of one key append in file order, and several
    [ConnectTo] lines union into one list. *)
Theorem parse_accumulates file pre post log err k :
  proto_free (pre ++ post) -> is_flag_key k = false ->
  exists st st1 st2,
    run_fold (parse_line file) (pre ++ post) (ps_init log err) = Continue st /\
    run_fold (parse_line file) pre (ps_init log err) = Continue st1 /\
    run_fold (parse_line file) post (ps_init log err) = Continue st2 /\
    values_of (prop_get (ps_obj st) k) =
      values_of (prop_get (ps_obj st1) k) ++ values_of (prop_get (ps_obj st2) k).
Proof.
  intros Hpf Hf. pose proof Hpf as [H1 H2]%proto_free_app.
  destruct (parse_lines_correct file _ log err Hpf) as (st & ? & Hst & _).
  destruct (parse_lines_correct file _ log err H1) as (st1 & ? & Hst1 & _).
  destruct (parse_lines_correct file _ log err H2) as (st2 & ? & Hst2 & _).
  exists st, st1, st2. do 3 (split; [done|]).
  rewrite Hst, Hst1, Hst2, !values_attr_spec, rests_of_app by done.
  case_bool_decide; by rewrite ?List.map_app, ?List.concat_app.
Qed.

Lemma parse_accumulates_witness :
  proto_free (["PostUp = a"] ++ ["PostUp = b"]) /\ is_flag_key "PostUp" = false /\
  exists st st1 st2,
    run_fold (parse_line "n.wg") (["PostUp = a"] ++ ["PostUp = b"]) (ps_init [] false) = Continue st /\
    run_fold (parse_line "n.wg") ["PostUp = a"] (ps_init [] false) = Continue st1 /\
    run_fold (parse_line "n.wg") ["PostUp = b"] (ps_init [] false) = Continue st2 /\
    values_of (prop_get (ps_obj st) "PostUp") =
      values_of (prop_get (ps_obj st1) "PostUp") ++ values_of (prop_get (ps_obj st2) "PostUp").
Proof.
  split; [vm_compute; reflexivity|]. split; [reflexivity|].
  apply parse_accumulates; [vm_compute|]; reflexivity.
Defined.

(** The line has an [=] and its trimmed key is [k]. *)
Definition has_key (k : string) (line : string) : bool :=
  match line_entry line with Some (k', _) => bool_decide (k' = k) | None => false end.

Lemma length_rests_of k lines :
  List.length (rests_of k lines) = List.length (filter (fun l => has_key k l = true) lines).
Proof.
  induction lines as [|l lines IH]; [done|]. rewrite filter_cons.
  assert (Hk : has_key k l = match rest_for k l with Some _ => true | None => false end)
    by (unfold has_key, rest_for; destruct (line_entry l) as [[]|]; [case_bool_decide|]; done).
  unfold rests_of at 1. simpl. change (list_omap _ _ (rest_for k) lines) with (rests_of k lines).
  destruct (rest_for k l); simpl.
  - rewrite decide_True by done. simpl. by rewrite IH.
  - by rewrite decide_False by (by rewrite Hk).
Qed.

(** C16 (functional): value accumulation (§8).  For an ordinary key (not a
    flag, not [ConnectTo]) the parsed value list holds the trimmed rests
    of the lines with that key, in file order: N such lines give exactly
    N values. *)
Theorem parse_value_count file lines log err k :
  proto_free lines -> is_flag_key k = false -> k <> "ConnectTo" ->
  exists st,
    run_fold (parse_line file) lines (ps_init log err) = Continue st /\
    values_of (prop_get (ps_obj st) k) = map trim (rests_of k lines) /\
    List.length (values_of (prop_get (ps_obj st) k)) =
      List.length (filter (fun l => has_key k l = true) lines).
Proof.
  intros Hpf Hf Hc. destruct (parse_lines_correct file _ log err Hpf) as (st & Hrun & Hst & _).
  exists st. split; [done|]. rewrite Hst, values_attr_spec, bool_decide_false by done.
  split; [done|]. by rewrite length_map, length_rests_of.
Qed.

Lemma parse_value_count_witness :
  proto_free ["PostUp = a"; "# note"; "PostUp = b"; "DNS = 1.1.1.1"; " PostUp=c "] /\
  is_flag_key "PostUp" = false /\ "PostUp" <> "ConnectTo" /\
  exists st,
    run_fold (parse_line "n.wg") ["PostUp = a"; "# note"; "PostUp = b"; "DNS = 1.1.1.1"; " PostUp=c "]
      (ps_init [] false) = Continue st /\
    values_of (prop_get (ps_obj st) "PostUp") =
      map trim (rests_of "PostUp" ["PostUp = a"; "# note"; "PostUp = b"; "DNS = 1.1.1.1"; " PostUp=c "]) /\
    List.length (values_of (prop_get (ps_obj st) "PostUp")) =
      List.length (filter (fun l => has_key "PostUp" l = true)
                     ["PostUp = a"; "# note"; "PostUp = b"; "DNS = 1.1.1.1"; " PostUp=c "]).
Proof.
  split; [vm_compute; reflexivity|]. split; [reflexivity|]. split; [done|].
  apply parse_value_count; [vm_compute; reflexivity|reflexivity|done].
Defined.


(** C17 (invariant): a flag set by a [= true] line stays set.  Once a line
    of [pre] has set [DefaultRoute] or [SplitFiles] to [true], no line of
    [post], whatever its value, resets it. *)
Theorem parse_flag_monotone file pre post log err line k r :
  proto_free (pre ++ post) -> is_flag_key k = true ->
  line ∈ pre -> line_entry line = Some (k, r) -> trim r = "true" ->
  exists st,
    run_fold (parse_line file) (pre ++ post) (ps_init log err) = Continue st /\
    prop_get (ps_obj st) k = Some VTrue.
Proof.
  intros Hpf Hf Hin El Ht.
  destruct (parse_lines_correct file _ log err Hpf) as (st & Hrun & Hst & _).
  exists st. split; [done|]. rewrite Hst. unfold attr_spec.
  rewrite bool_decide_false by (intros ->; discriminate). rewrite Hf.
  assert (Hr : r ∈ rests_of k (pre ++ post)).
  { unfold rests_of. apply list_elem_of_omap. exists line. split; [set_solver|].
    unfold rest_for. rewrite El. by rewrite bool_decide_true. }
  rewrite (proj2 (existsb_exists _ _)); [done|].
  exists r. split; [by apply list_elem_of_In|by rewrite bool_decide_true].
Qed.

Lemma parse_flag_monotone_witness :
  exists st,
    run_fold (parse_line "n.wg") (["DefaultRoute = true"] ++ ["DefaultRoute = no"]) (ps_init [] false)
      = Continue st /\
    prop_get (ps_obj st) "DefaultRoute" = Some VTrue.
Proof.
  apply (parse_flag_monotone "n.wg" ["DefaultRoute = true"] ["DefaultRoute = no"] [] false
           "DefaultRoute = true" "DefaultRoute" " true");
    [vm_compute; reflexivity|reflexivity|by_decide|vm_compute; reflexivity|vm_compute; reflexivity].
Defined.


(** One line whose key is an inherited name that the object does not
    hold: the warning is printed and the spread throws. *)
Lemma parse_line_inherited file st line k r :
  line_entry line = Some (k, r) -> k ∈ object_prototype_keys -> prop_get (ps_obj st) k = None ->
  exists s, parse_line file st line = Abort s /\
    ps_log s = ps_log st ++ [k +:+ " in " +:+ file +:+ " is unfamiliar"].
Proof.
  intros El Hk Hget. unfold parse_line. unfold line_entry in El.
  destruct (split_key_rest line) as [[k0 r0]|]; simplify_eq/=.
  rewrite (bool_decide_false (trim k0 ∈ allowed_keys)) by (by apply inherited_not_allowed).
  rewrite (bool_decide_false (trim k0 = "ConnectTo")) by (intros Hc; rewrite Hc in Hk; set_solver).
  replace (is_flag_key (trim k0)) with false
    by (unfold is_flag_key; rewrite !bool_decide_false; [done| |]; intros Hc; rewrite Hc in Hk; set_solver).
  unfold spread_or_empty. cbn [ps_obj ps_warn].
  rewrite Hget, bool_decide_true by done. cbn [lift_throw]. eauto.
Qed.

Lemma parse_inherited_abort file pre line post log err k r :
  proto_free pre -> line_entry line = Some (k, r) -> k ∈ object_prototype_keys ->
  exists st,
    run_fold (parse_line file) (pre ++ line :: post) (ps_init log err) = Abort st /\
    ps_log st = log ++ unknown_warnings file pre ++ [k +:+ " in " +:+ file +:+ " is unfamiliar"].
Proof.
  intros Hpf El Hk.
  destruct (parse_lines_correct file _ log err Hpf) as (st & Hrun & Hst & Hlog & _).
  rewrite run_fold_app, Hrun. cbn [run_fold].
  destruct (parse_line_inherited file st line k r) as (s & -> & Hs);
    [done|done|by rewrite Hst, attr_spec_inherited|].
  exists s. split; [done|]. by rewrite Hs, Hlog, app_assoc.
Qed.

(** C24 (error): a key inherited from [Object.prototype] stops the program.
    After the lines [pre] the line [line] uses such a key ("constructor",
    "toString", "__proto__", ...): the unfamiliar-key warning is printed,
    then [[...(obj[key] || [])]] spreads a function and throws, so the
    rest of the file and every later file are never checked. *)
Theorem parse_inherited_key_aborts file pre line post log err k r :
  proto_free pre -> line_entry line = Some (k, r) -> k ∈ object_prototype_keys ->
  exists st,
    run_fold (parse_line file) (pre ++ line :: post) (ps_init log err) = Abort st /\
    ps_log st = log ++ unknown_warnings file pre ++ [k +:+ " in " +:+ file +:+ " is unfamiliar"].
Proof. by eapply parse_inherited_abort. Qed.

Lemma parse_inherited_key_aborts_witness :
  exists st,
    run_fold (parse_line "n.wg") ([] ++ "constructor = x" :: ["Address = 1"]) (ps_init [] false)
      = Abort st /\
    ps_log st = [] ++ unknown_warnings "n.wg" [] ++ ["constructor" +:+ " in " +:+ "n.wg" +:+ " is unfamiliar"].
Proof.
  apply (parse_inherited_key_aborts "n.wg" [] "constructor = x" ["Address = 1"] [] false
           "constructor" " x"); [reflexivity|vm_compute; reflexivity|by_decide].
Defined.


(** ** The type invariant of attribute objects *)

(** A flag holds [true]; every other key holds a non-empty array. *)
Definition val_typed (k : string) (v : jsval) : bool :=
  match v with
  | VTrue => is_flag_key k
  | VList (_ :: _) => negb (is_flag_key k)
  | VList [] => false
  end.

(** Distinct keys, each with a typed value (decidable, so that it
    evaluates on concrete objects). *)
Definition obj_typed (o : nodeobj) : Prop :=
  NoDup o.*1 /\ Forall (fun kv => val_typed kv.1 kv.2 = true) o.

#[export] Instance obj_typed_dec o : Decision (obj_typed o).
Proof. unfold obj_typed. apply _. Defined.

Lemma val_typed_spec k v :
  val_typed k v = true <-> if is_flag_key k then v = VTrue else exists x l, v = VList (x :: l).
Proof.
  unfold val_typed. destruct (is_flag_key k), v as [[|x l]|]; simpl; split; try done; eauto.
  - by intros (? & ? & ?).
  - by intros (? & ? & ?).
Qed.

Lemma obj_typed_elem o k v :
  obj_typed o -> (k, v) ∈ o -> if is_flag_key k then v = VTrue else exists x l, v = VList (x :: l).
Proof.
  intros [_ Hall] Hin. rewrite Forall_forall in Hall. by apply val_typed_spec, (Hall (k, v)).
Qed.

Lemma obj_typed_assign o k v :
  obj_typed o -> (if is_flag_key k then v = VTrue else exists x l, v = VList (x :: l)) ->
  obj_typed (prop_assign o k v).
Proof.
  intros [Hnd Hv] Hkv. split; [by apply prop_assign_NoDup|].
  rewrite Forall_forall in Hv |- *.
  intros [k' v'] [Heq|Hin]%elem_of_prop_assign; [simplify_eq; by apply val_typed_spec|by apply Hv].
Qed.

Lemma parse_line_keeps_typed file st line st' :
  obj_typed (ps_obj st) -> parse_line file st line = Continue st' -> obj_typed (ps_obj st').
Proof.
  unfold parse_line, lift_throw.
  destruct (split_key_rest line) as [[k r]|]; [|congruence]. intros Hty.
  set (st1 := if bool_decide (trim k ∈ allowed_keys) then st else ps_warn _ st).
  assert (Ho : ps_obj st1 = ps_obj st) by (subst st1; by case_bool_decide).
  clearbody st1. rewrite <- Ho in Hty.
  destruct (bool_decide (trim k = "ConnectTo")) eqn:Hc;
    [|destruct (is_flag_key (trim k)) eqn:Hf; [destruct (bool_decide (trim r = "true"))|]].
  all: try (destruct (spread_or_empty (ps_obj st1) (trim k)) as [cur|]; [|congruence]).
  all: intros [= <-]; simpl; try done; apply obj_typed_assign; try done; rewrite ?Hf; try done.
  - apply bool_decide_eq_true in Hc. rewrite Hc. simpl.
    destruct (split_char_nonempty "," r) as (x & l & ->). destruct cur; simpl; eauto.
  - destruct cur; simpl; eauto.
Qed.

(** C18 (invariant): every line that does not throw keeps the type
    invariant, so the flags only ever hold [true] and every other value
    is a non-empty array of strings. *)
Theorem parse_line_typed file st line st' :
  obj_typed (ps_obj st) -> parse_line file st line = Continue st' -> obj_typed (ps_obj st').
Proof. by eapply parse_line_keeps_typed. Qed.

Lemma parse_line_typed_witness :
  obj_typed [("DNS", VList ["1.1.1.1"])] /\
  parse_line "n.wg" {| ps_obj := [("DNS", VList ["1.1.1.1"])]; ps_log := []; ps_err := false |}
    "DNS = 8.8.8.8"
    = Continue {| ps_obj := [("DNS", VList ["1.1.1.1"; "8.8.8.8"])]; ps_log := []; ps_err := false |} /\
  obj_typed [("DNS", VList ["1.1.1.1"; "8.8.8.8"])].
Proof.
  split; [by_decide|]. split; [vm_compute; reflexivity|].
  apply (parse_line_typed "n.wg"
           {| ps_obj := [("DNS", VList ["1.1.1.1"])]; ps_log := []; ps_err := false |}
           "DNS = 8.8.8.8"
           {| ps_obj := [("DNS", VList ["1.1.1.1"; "8.8.8.8"])]; ps_log := []; ps_err := false |});
    [by_decide|vm_compute; reflexivity].
Defined.


Lemma attr_spec_typed k lines v :
  attr_spec k lines = Some v ->
  if is_flag_key k then v = VTrue else exists x l, v = VList (x :: l).
Proof.
  unfold attr_spec. case_bool_decide as Hc.
  - subst. simpl. destruct (rests_of "ConnectTo" lines) as [|r rs]; [done|]. intros [= <-].
    simpl. destruct (split_char_nonempty "," r) as (x & l & Hs). unfold connect_names.
    rewrite Hs. simpl. eauto.
  - destruct (is_flag_key k).
    + by destruct (existsb _ _); intros [= <-].
    + destruct (rests_of k lines); intros [= <-]; simpl; eauto.
Qed.

Lemma typed_prop_get o k v :
  obj_typed o -> prop_get o k = Some v ->
  if is_flag_key k then v = VTrue else exists x l, v = VList (x :: l).
Proof. intros Hty Hk. by apply (obj_typed_elem o), prop_get_elem_of. Qed.

(** ** Line terminators inside a value *)
