(* ===== verification/RegExpSplit.v ===== *)
(** * [String.prototype.split] with a regular expression

    The script splits twice with a regular expression:
    [readFileSync(...).split(/\r?\n/)] (line 39) and
    [line.split(re)] (line 41), [re] an [=] followed by a greedy capture
    group of [.] atoms.  Both calls run the algorithm of
    [RegExp.prototype[@@split]] (ECMA-262, 22.2.6.14): with [p] the start
    of the current piece and [q] the position where a match is tried, a
    sticky copy of the separator is run at [q]; no match, or an empty
    match at [p], moves [q] on by one; a match ending at [e] pushes the
    piece [p..q) and the captures, and restarts with [p = q = e]; when
    [q] reaches the end the last piece [p..size) is pushed.  The loop is
    not structural: [q] grows and [p] jumps, so [split_loop] runs on fuel;
    [split_loop_total] shows that [2 * size + 1] iterations are always
    enough and [split_loop_fuel_indep] that more fuel changes nothing,
    which gives the loop's unfolding equation ([split_loop_unfold]).

    A separator is a [StickyRegExp]: what [RegExpExec] returns at
    [lastIndex = q], with the law that a match ends at or after [q].
    [crlf_regexp] and [eq_capture_regexp] are the two separators of the
    script, as a backtracking matcher runs them.  The two equivalences
    at the end show that the parser's structural functions
    ([split_lines], [split_key_rest], Parser.v) compute exactly what the
    algorithm returns. *)

From S2P Require Import Prelude StringLaws Parser.

(** ** Separators *)

(** [RegExpExec(splitter, S)] after [splitter.lastIndex = q], for a sticky
    [splitter]: [None] for [null], or the [lastIndex] after the match and
    the captures [1..n]. *)
Record StickyRegExp : Type := {
  regexp_exec : string -> nat -> option (nat * list string);
  regexp_exec_forward s q e caps : regexp_exec s q = Some (e, caps) -> q <= e
}.

(** ** The algorithm *)

Section Split.
Context (R : StickyRegExp).

(** Steps 17 and 18: [q < size] is the loop test; [AdvanceStringIndex]
    is [q + 1] (no [u] flag); [e] is [min(lastIndex, size)]; the limit
    [2^32 - 1] on the number of pieces is never reached by the strings
    considered here and is left out. *)
Fixpoint split_loop (s : string) (fuel p q : nat) : option (list string) :=
  match fuel with
  | O => None
  | S fuel' =>
      if q <? String.length s then
        match regexp_exec R s q with
        | None => split_loop s fuel' p (S q)
        | Some (e, caps) =>
            let e := Nat.min e (String.length s) in
            if e =? p then split_loop s fuel' p (S q)
            else (fun A => substring p (q - p) s :: caps ++ A) <$> split_loop s fuel' e e
        end
      else Some [substring p (String.length s - p) s]
  end.

(** The fuel [regexp_split] gives the loop: one more than the variant
    [split_measure] can be at the start. *)
Definition split_fuel (s : string) : nat := S (S (2 * String.length s)).

(** Steps 13-18: an empty string is one piece unless the separator
    matches it. *)
Definition regexp_split (s : string) : option (list string) :=
  if String.length s =? 0 then
    match regexp_exec R s 0 with Some _ => Some [] | None => Some [s] end
  else split_loop s (split_fuel s) 0 0.

End Split.

(** [/\r?\n/]: the optional CR is tried first, then the match without it. *)
Definition crlf_exec (s : string) (q : nat) : option (nat * list string) :=
  match String.get q s with
  | Some c =>
      if bool_decide (c = "013"%char) && bool_decide (String.get (S q) s = Some "010"%char)
      then Some (S (S q), [])
      else if bool_decide (c = "010"%char) then Some (S q, []) else None
  | None => None
  end.

(** The separator of line 41: an [=], then the greedy group of [.]
    atoms, which stops at the first line terminator; the group is the one
    capture. *)
Definition eq_capture_exec (s : string) (q : nat) : option (nat * list string) :=
  match String.get q s with
  | Some c =>
      if bool_decide (c = "="%char) then
        let cap := take_line (substring (S q) (String.length s - S q) s) in
        Some (S q + String.length cap, [cap])
      else None
  | None => None
  end.

Definition crlf_regexp : StickyRegExp.
Proof.
  refine {| regexp_exec := crlf_exec |}.
  intros s q e caps. unfold crlf_exec.
  destruct (String.get q s); [|done]. repeat case_match; intros; simplify_eq; lia.
Defined.

Definition eq_capture_regexp : StickyRegExp.
Proof.
  refine {| regexp_exec := eq_capture_exec |}.
  intros s q e caps. unfold eq_capture_exec.
  destruct (String.get q s); [|done]. case_match; intros; simplify_eq; lia.
Defined.

(** The empty separator [/(?:)/]: an empty match everywhere. *)
Definition empty_regexp : StickyRegExp.
Proof. refine {| regexp_exec := fun _ q => Some (q, []) |}. intros. simplify_eq. lia. Defined.

Arguments split_fuel : simpl never.

(** ** Termination *)

(** Decides the comparisons of the variant and closes the goal by [lia]. *)
Ltac ltb_lia :=
  repeat match goal with
  | |- context [?a <? ?b] => destruct (Nat.ltb_spec a b)
  | H : context [?a <? ?b] |- _ => destruct (Nat.ltb_spec a b)
  end; lia.

Section Termination.
Context (R : StickyRegExp) (s : string).

(** The variant of the loop: twice the positions left after [q], plus one
    while the current piece [p..q) is not empty.  Each iteration lowers
    it: [q + 1] lowers the first part by two and raises the second by at
    most one; a match ending at [e > q] lowers the first part; a match
    ending at [e = q] is taken only when [e <> p], i.e. [p < q], and then
    empties the piece. *)
Definition split_measure (p q : nat) : nat :=
  2 * (String.length s - q) + (if p <? q then 1 else 0).

Lemma split_loop_fuel_le fuel fuel' p q A :
  fuel <= fuel' -> split_loop R s fuel p q = Some A -> split_loop R s fuel' p q = Some A.
Proof.
  revert fuel' p q A. induction fuel as [|fuel IH]; intros [|fuel'] p q A Hle; simpl; try done; [lia|].
  destruct (q <? String.length s); [|done].
  destruct (regexp_exec R s q) as [[e caps]|]; [destruct (_ =? p)|]; try (apply IH; lia).
  destruct (split_loop R s fuel _ _) as [B|] eqn:E; [|done].
  by rewrite (IH fuel' _ _ B) by (done || lia).
Qed.

Lemma split_loop_total fuel p q :
  p <= q -> split_measure p q < fuel -> is_Some (split_loop R s fuel p q).
Proof.
  revert p q. induction fuel as [|fuel IH]; intros p q Hpq Hf; [lia|]. simpl. unfold split_measure in *.
  destruct (Nat.ltb_spec q (String.length s)) as [Hq|Hq]; [|by eexists].
  destruct (regexp_exec R s q) as [[e caps]|] eqn:Ex; [|apply IH; ltb_lia].
  apply regexp_exec_forward in Ex.
  destruct (Nat.eqb_spec (Nat.min e (String.length s)) p); [apply IH; ltb_lia|].
  destruct (IH (Nat.min e (String.length s)) (Nat.min e (String.length s))) as [A ->]; [lia|ltb_lia|].
  by eexists.
Qed.

Lemma split_loop_fuel_indep fuel fuel' p q :
  p <= q -> split_measure p q < fuel -> split_measure p q < fuel' ->
  split_loop R s fuel p q = split_loop R s fuel' p q.
Proof.
  intros Hpq H1 H2.
  destruct (split_loop_total fuel p q Hpq H1) as [A HA], (split_loop_total fuel' p q Hpq H2) as [B HB].
  rewrite HA, HB. destruct (Nat.le_ge_cases fuel fuel') as [Hle|Hle].
  - by rewrite (split_loop_fuel_le _ _ _ _ _ Hle HA) in HB.
  - by rewrite (split_loop_fuel_le _ _ _ _ _ Hle HB) in HA.
Qed.

Lemma split_loop_fuel_total p q : p <= q -> is_Some (split_loop R s (split_fuel s) p q).
Proof. intros Hpq. apply split_loop_total; [done|]. unfold split_measure, split_fuel. ltb_lia. Qed.

Lemma split_loop_S fuel p q :
  split_loop R s (S fuel) p q =
  if q <? String.length s then
    match regexp_exec R s q with
    | None => split_loop R s fuel p (S q)
    | Some (e, caps) =>
        let e := Nat.min e (String.length s) in
        if e =? p then split_loop R s fuel p (S q)
        else (fun A => substring p (q - p) s :: caps ++ A) <$> split_loop R s fuel e e
    end
  else Some [substring p (String.length s - p) s].
Proof. done. Qed.

(** One iteration of the loop with the fuel [regexp_split] gives it. *)
Lemma split_loop_unfold p q :
  p <= q ->
  split_loop R s (split_fuel s) p q =
  if q <? String.length s then
    match regexp_exec R s q with
    | None => split_loop R s (split_fuel s) p (S q)
    | Some (e, caps) =>
        let e := Nat.min e (String.length s) in
        if e =? p then split_loop R s (split_fuel s) p (S q)
        else (fun A => substring p (q - p) s :: caps ++ A) <$> split_loop R s (split_fuel s) e e
    end
  else Some [substring p (String.length s - p) s].
Proof.
  intros Hpq. unfold split_fuel at 1. rewrite split_loop_S.
  destruct (Nat.ltb_spec q (String.length s)) as [Hq|Hq]; [|done].
  assert (Hf : forall p' q', p' <= q' -> split_measure p' q' <= 2 * String.length s ->
    split_loop R s (S (2 * String.length s)) p' q' = split_loop R s (split_fuel s) p' q').
  { intros. apply split_loop_fuel_indep; unfold split_fuel; lia. }
  destruct (regexp_exec R s q) as [[e caps]|] eqn:Ex; [|apply Hf; unfold split_measure; ltb_lia].
  apply regexp_exec_forward in Ex. cbv zeta.
  destruct (Nat.eqb_spec (Nat.min e (String.length s)) p); [apply Hf; unfold split_measure; ltb_lia|].
  rewrite Hf; [done|lia|unfold split_measure; ltb_lia].
Qed.

End Termination.

(** ** Separators that look only forward

    Neither separator of the script has a lookbehind or an anchor: what it
    does at a position of [x ++ y] past [x] is what it does in [y]
    ([regexp_local]); and neither matches the empty string
    ([regexp_nonempty]).  For such a separator the loop on [x ++ y] is
    the loop on [y] with [x] glued to the first piece. *)

Definition regexp_local (R : StickyRegExp) : Prop :=
  forall x y j, regexp_exec R (x +:+ y) (String.length x + j) =
    prod_map (Nat.add (String.length x)) id <$> regexp_exec R y j.

Definition regexp_nonempty (R : StickyRegExp) : Prop :=
  forall s q e caps, regexp_exec R s q = Some (e, caps) -> q < e.

Definition map_head {A} (f : A -> A) (l : list A) : list A :=
  match l with [] => [] | x :: l' => f x :: l' end.

Section Local.
Context (R : StickyRegExp) (Hloc : regexp_local R).

(** Positions past [x] behave as in [y]. *)
Lemma split_loop_shift x y p q :
  p <= q ->
  split_loop R (x +:+ y) (split_fuel (x +:+ y)) (String.length x + p) (String.length x + q) =
  split_loop R y (split_fuel y) p q.
Proof.
  remember (split_measure y p q) as n eqn:Hn. revert p q Hn.
  induction n as [n IH] using lt_wf_ind; intros p q -> Hpq.
  rewrite (split_loop_unfold _ _ (_ + p)), (split_loop_unfold _ _ p) by lia. rewrite string_length_app, Hloc.
  destruct (Nat.ltb_spec q (String.length y)) as [Hq|Hq].
  - rewrite (proj2 (Nat.ltb_lt _ _)) by lia.
    destruct (regexp_exec R y q) as [[e caps]|] eqn:Ex; cbn [fmap option_fmap option_map prod_map id fst snd];
      [|rewrite <- Nat.add_succ_r; apply (IH (split_measure y p (S q))); [unfold split_measure; ltb_lia|done|lia]].
    pose proof (regexp_exec_forward R _ _ _ _ Ex) as He.
    replace (Nat.min (String.length x + e) (String.length x + String.length y))
      with (String.length x + Nat.min e (String.length y)) by lia.
    destruct (Nat.eqb_spec (Nat.min e (String.length y)) p).
    + rewrite (proj2 (Nat.eqb_eq _ _)) by lia. rewrite <- Nat.add_succ_r.
      apply (IH (split_measure y p (S q))); [unfold split_measure; ltb_lia|done|lia].
    + rewrite (proj2 (Nat.eqb_neq _ _)) by lia.
      rewrite (IH (split_measure y (Nat.min e (String.length y)) (Nat.min e (String.length y))));
        [|unfold split_measure; ltb_lia|done|lia].
      replace (String.length x + q - (String.length x + p)) with (q - p) by lia.
      by rewrite substring_app_r.
  - rewrite (proj2 (Nat.ltb_ge _ _)) by lia.
    replace (String.length x + String.length y - (String.length x + p)) with (String.length y - p) by lia.
    by rewrite substring_app_r.
Qed.

Lemma split_loop_cons_shift c y p q :
  p <= q -> split_loop R (String c y) (split_fuel (String c y)) (S p) (S q) = split_loop R y (split_fuel y) p q.
Proof. exact (split_loop_shift (String c EmptyString) y p q). Qed.

Context (Hne : regexp_nonempty R).

(** A non-empty [x] before the first position tried is glued to the
    first piece. *)
Lemma split_loop_prefix x y q :
  x <> EmptyString ->
  split_loop R (x +:+ y) (split_fuel (x +:+ y)) 0 (String.length x + q) =
  map_head (String.append x) <$> split_loop R y (split_fuel y) 0 q.
Proof.
  intros Hx. assert (Hlx : 0 < String.length x) by (destruct x; simpl; [done|lia]).
  remember (split_measure y 0 q) as n eqn:Hn. revert q Hn.
  induction n as [n IH] using lt_wf_ind; intros q ->.
  rewrite (split_loop_unfold _ _ 0 (_ + q)), (split_loop_unfold _ _ 0 q) by lia. rewrite string_length_app, Hloc.
  destruct (Nat.ltb_spec q (String.length y)) as [Hq|Hq].
  - rewrite (proj2 (Nat.ltb_lt _ _)) by lia.
    destruct (regexp_exec R y q) as [[e caps]|] eqn:Ex; cbn [fmap option_fmap option_map prod_map id fst snd];
      [|rewrite <- Nat.add_succ_r; apply (IH (split_measure y 0 (S q))); [unfold split_measure; ltb_lia|done]].
    pose proof (Hne _ _ _ _ Ex) as He.
    replace (Nat.min (String.length x + e) (String.length x + String.length y))
      with (String.length x + Nat.min e (String.length y)) by lia.
    rewrite !(proj2 (Nat.eqb_neq _ _)) by lia.
    rewrite split_loop_shift by done. rewrite !Nat.sub_0_r, substring_app_l.
    by destruct (split_loop R y _ _ _).
  - rewrite (proj2 (Nat.ltb_ge _ _)) by lia. by rewrite !Nat.sub_0_r, substring_app_l.
Qed.

Lemma split_loop_cons_prefix c y q :
  split_loop R (String c y) (split_fuel (String c y)) 0 (S q) =
  map_head (String c) <$> split_loop R y (split_fuel y) 0 q.
Proof. exact (split_loop_prefix (String c EmptyString) y q ltac:(done)). Qed.

End Local.

(** ** The separators of the script *)

Lemma crlf_local : regexp_local crlf_regexp.
Proof.
  intros x y j. cbn [regexp_exec crlf_regexp]. unfold crlf_exec.
  rewrite string_get_app_r, <- ?Nat.add_succ_r, ?string_get_app_r.
  destruct (String.get j y); [|done]. repeat case_match; simpl; try done; do 2 f_equal; lia.
Qed.

Lemma crlf_nonempty : regexp_nonempty crlf_regexp.
Proof.
  intros s q e caps. cbn [regexp_exec crlf_regexp]. unfold crlf_exec.
  destruct (String.get q s); [|done]. repeat case_match; intros; simplify_eq; lia.
Qed.

Lemma eq_capture_local : regexp_local eq_capture_regexp.
Proof.
  intros x y j. cbn [regexp_exec eq_capture_regexp]. unfold eq_capture_exec.
  rewrite string_get_app_r. destruct (String.get j y); try done. case_match; try done.
  rewrite ?string_length_app, <- ?Nat.add_succ_r, ?substring_app_r.
  try replace (String.length x + String.length y - (String.length x + S j))
    with (String.length y - S j) by lia.
  simpl. do 2 f_equal; try lia.
Qed.

Lemma eq_capture_nonempty : regexp_nonempty eq_capture_regexp.
Proof.
  intros s q e caps. cbn [regexp_exec eq_capture_regexp]. unfold eq_capture_exec.
  destruct (String.get q s); [|done]. case_match; intros; simplify_eq; lia.
Qed.

(** ** [split(/\r?\n/)] is [split_lines] *)

Lemma split_char_lf_head y p ps :
  split_char "010" y = "" :: p :: ps -> String.get 0 y = Some "010"%char.
Proof.
  destruct y as [|d y]; simpl; [done|]. case_bool_decide; [by subst|].
  by destruct (split_char "010" y).
Qed.

Lemma split_lines_lf y : split_lines (String "010" y) = "" :: split_lines y.
Proof.
  unfold split_lines. simpl.
  by destruct (split_char_nonempty "010" y) as (p & ps & ->).
Qed.

Lemma split_lines_crlf y : split_lines (String "013" (String "010" y)) = "" :: split_lines y.
Proof.
  unfold split_lines. simpl.
  by destruct (split_char_nonempty "010" y) as (p & ps & ->).
Qed.

(** A character that does not start a separator joins the first line. *)
Lemma split_lines_cons c y :
  c <> "010"%char -> (c = "013"%char -> String.get 0 y <> Some "010"%char) ->
  split_lines (String c y) = map_head (String c) (split_lines y).
Proof.
  intros Hlf Hcr. unfold split_lines. simpl. rewrite bool_decide_false by done.
  destruct (split_char "010" y) as [|p [|p' ps]] eqn:E; [|done|].
  { by destruct (split_char_nonempty "010" y) as (? & ? & E'); rewrite E in E'. }
  destruct p as [|d p]; [|done]. simpl. rewrite bool_decide_false; [done|].
  intros ->. by apply (Hcr eq_refl), (split_char_lf_head y p' ps).
Qed.

Lemma crlf_split_loop s : split_loop crlf_regexp s (split_fuel s) 0 0 = Some (split_lines s).
Proof.
  remember (String.length s) as n eqn:Hn. revert s Hn.
  induction n as [n IH] using lt_wf_ind; intros s ->.
  destruct s as [|c y]; [done|].
  rewrite split_loop_unfold by lia. cbn [regexp_exec crlf_regexp crlf_exec String.get String.length Nat.ltb Nat.leb].
  destruct (decide (c = "010"%char)) as [->|Hlf].
  { rewrite (bool_decide_false ("010"%char = "013"%char)), (bool_decide_true ("010"%char = "010"%char)) by done.
    cbn [andb Nat.min Nat.eqb substring Nat.sub]. rewrite (split_loop_cons_shift _ crlf_local _ _ 0 0) by done.
    rewrite (IH (String.length y)) by (simpl; lia). by rewrite split_lines_lf. }
  destruct (decide (c = "013"%char /\ String.get 0 y = Some "010"%char)) as [[-> Hy]|Hother].
  { destruct y as [|d y]; [done|]. injection Hy as ->. rewrite !bool_decide_true by done.
    cbn [andb Nat.min Nat.eqb substring Nat.sub String.length].
    rewrite (split_loop_cons_shift _ crlf_local _ _ 1 1), (split_loop_cons_shift _ crlf_local _ _ 0 0) by lia.
    rewrite (IH (String.length y)) by (simpl; lia). by rewrite split_lines_crlf. }
  assert (Hn : bool_decide (c = "013"%char) && bool_decide (String.get 0 y = Some "010"%char) = false).
  { apply andb_false_iff. destruct (decide (c = "013"%char)).
    - right. apply bool_decide_false. naive_solver.
    - left. by apply bool_decide_false. }
  rewrite Hn, (bool_decide_false (c = "010"%char)) by done.
  rewrite (split_loop_cons_prefix _ crlf_local crlf_nonempty c y 0).
  rewrite (IH (String.length y)) by (simpl; lia). rewrite split_lines_cons; naive_solver.
Qed.

(** C22 (equivalence): [split_lines] is what [content.split(/\r?\n/)]
    returns.  For every file text, the ECMAScript split algorithm run with
    the separator CR? LF returns exactly the lines the parser iterates:
    the pieces between LFs, each but the last without one trailing CR. *)
Theorem split_lines_regexp content : regexp_split crlf_regexp content = Some (split_lines content).
Proof. destruct content as [|c y]; [done|]. apply crlf_split_loop. Qed.

(** ** [split(re)] at line 41 and [split_key_rest] *)

Lemma eq_capture_split_loop s :
  (includes_char "=" s = false /\ break_char "=" s = None /\
   split_loop eq_capture_regexp s (split_fuel s) 0 0 = Some [s]) \/
  (includes_char "=" s = true /\ exists k a tl, break_char "=" s = Some (k, a) /\
   split_loop eq_capture_regexp s (split_fuel s) 0 0 = Some (k :: take_line a :: tl)).
Proof.
  induction s as [|c y IH]; [by left|].
  rewrite split_loop_unfold by lia.
  cbn [regexp_exec eq_capture_regexp eq_capture_exec String.get String.length Nat.ltb Nat.leb].
  destruct (decide (c = "="%char)) as [->|Hc].
  - right. rewrite (bool_decide_true ("="%char = "="%char)) by done.
    cbn [Nat.min Nat.eqb Nat.add substring Nat.sub String.length]. rewrite Nat.sub_0_r, substring_full.
    set (e := S (String.length (take_line y) `min` String.length y)).
    destruct (split_loop_fuel_total eq_capture_regexp (String "=" y) e e) as [A ->]; [done|].
    split; [done|]. by exists "", y, A.
  - rewrite (bool_decide_false (c = "="%char)) by done.
    rewrite (split_loop_cons_prefix _ eq_capture_local eq_capture_nonempty c y 0).
    cbn [includes_char break_char]. rewrite (bool_decide_false (c = "="%char)) by done.
    destruct IH as [(Hi & Hb & ->)|(Hi & k & a & tl & Hb & ->)]; rewrite Hi, Hb; [by left|].
    right. split; [done|]. by exists (String c k), a, tl.
Qed.

(** C23 (equivalence): [split_key_rest] is the destructuring
    [let [key, rest] = line.split(re)].  A line without [=] fails the
    test [line.includes('=')]; on a line with one, the ECMAScript split
    algorithm returns at least two elements, and the first two are the
    text before the first [=] and what the greedy group captured after
    it, the pair the parser goes on with. *)
Theorem split_key_rest_regexp line :
  (includes_char "=" line = false /\ split_key_rest line = None) \/
  (includes_char "=" line = true /\ exists k r tl,
     split_key_rest line = Some (k, r) /\ regexp_split eq_capture_regexp line = Some (k :: r :: tl)).
Proof.
  unfold split_key_rest, regexp_split. destruct line as [|c y]; [by left|].
  cbn [String.length Nat.eqb].
  destruct (eq_capture_split_loop (String c y)) as [(Hi & Hb & _)|(Hi & k & a & tl & Hb & Hl)];
    rewrite Hb; [by left|].
  right. split; [done|]. by exists k, (take_line a), tl.
Qed.

(** ** Examples *)

(** The bound is reached up to one: the empty separator needs [2 * size]
    iterations, two per character (["ab".split(/(?:)/)] is [["a", "b"]]). *)
Example split_loop_fuel_exact :
  split_loop empty_regexp "ab" 3 0 0 = None /\ split_loop empty_regexp "ab" 4 0 0 = Some ["a"; "b"].
Proof. split; reflexivity. Qed.

(** ["a=b=c".split(re)] is [["a", "b=c", ""]]: the capture is the second
    element and what follows the match the third. *)
Example eq_capture_three_pieces : regexp_split eq_capture_regexp "a=b=c" = Some ["a"; "b=c"; ""].
Proof. reflexivity. Qed.
