(* ===== verification/Registry.v ===== *)
(** * Registry: loading every definition file (genConf.js lines 31-59)

    [fs.readdirSync(nodes_dir).forEach(...)] visits the directory listing
    in order.  A file whose name does not end in [.wg] is skipped; for the
    others the node name is the file name without [.wg]
    ([path.basename(file, '.wg')]), an empty object is stored under that
    name in [nodes] and filled by the parser, and the two required
    attributes are checked ([check_must_have], lines 54-57).  The state of
    this phase ([load_state]) is the [nodes] object, the console output and
    the global error flag [err]; line 59 ends the program with exit status
    -1 when [err] is set (see Program.v).

    The attribute object is created empty, stored in [nodes] at once and
    then mutated through the alias [obj]; nothing reads [nodes] while a
    file is parsed, so storing the finished object at the position the
    empty one took ([prop_assign] keeps the first position of a key) gives
    the same [nodes]. *)

From S2P Require Import Prelude JsObject Parser.

Record load_state : Type := {
  ld_nodes : jsobj nodeobj;
  ld_log : list string;
  ld_err : bool
}.

Definition load_init : load_state := {| ld_nodes := []; ld_log := []; ld_err := false |}.

(** [path.basename(file, '.wg')] for a directory entry ending in [.wg]: the
    entry has no slash, so this drops the suffix (and gives [""] for the
    entry [".wg"] itself). *)
Definition basename_wg (file : string) : string := drop_end 3 file.

(** Lines 54-57: [for (const mh of must_have) if (!(mh in obj)) ...]. *)
Definition check_must_have (file : string) (o : nodeobj) (log : list string) (err : bool)
    : list string * bool :=
  foldl (fun acc mh =>
           if prop_has o mh then acc
           else (acc.1 ++ [file +:+ " is missing " +:+ mh], true))
        (log, err) must_have.

(** The body of the [forEach] callback, lines 37-57. *)
Definition load_file (st : load_state) (entry : string * string) : run load_state :=
  let '(file, content) := entry in
  if negb (ends_with ".wg" file) then Continue st
  else
    let name := basename_wg file in
    match parse_file file content (ld_log st) (ld_err st) with
    | Abort ps =>
        Abort {| ld_nodes := prop_assign (ld_nodes st) name (ps_obj ps);
                 ld_log := ps_log ps; ld_err := ps_err ps |}
    | Continue ps =>
        let '(log, err) := check_must_have file (ps_obj ps) (ps_log ps) (ps_err ps) in
        Continue {| ld_nodes := prop_assign (ld_nodes st) name (ps_obj ps);
                    ld_log := log; ld_err := err |}
    end.

(** Lines 36-58 over the directory listing: pairs of an entry name and the
    file's text. *)
Definition load_nodes (dir : list (string * string)) : run load_state :=
  run_fold load_file dir load_init.

(** ** Specification of the loading phase *)

Definition is_wg (entry : string * string) : bool := ends_with ".wg" entry.1.

(** The directory entries the loop does not skip. *)
Definition wg_entries (dir : list (string * string)) : list (string * string) :=
  filter (fun e => is_wg e = true) dir.

Definition node_names (dir : list (string * string)) : list string :=
  map (fun e => basename_wg e.1) (wg_entries dir).

(** The missing-attribute diagnostics of one file. *)
Definition missing_warnings (file : string) (lines : list string) : list string :=
  omap (fun mh => match attr_spec mh lines with
                  | Some _ => None
                  | None => Some (file +:+ " is missing " +:+ mh)
                  end) must_have.

Definition file_diagnostics (entry : string * string) : list string :=
  let lines := split_lines entry.2 in
  unknown_warnings entry.1 lines ++ missing_warnings entry.1 lines.

(** Every diagnostic of the run, file by file in listing order: first the
    unknown keys of the file in line order, then its missing attributes. *)
Definition diagnostics (dir : list (string * string)) : list string :=
  List.concat (map file_diagnostics (wg_entries dir)).

(** No definition file uses a key inherited from [Object.prototype]. *)
Definition dir_proto_free (dir : list (string * string)) : Prop :=
  forallb (fun e => forallb proto_free_line (split_lines e.2)) (wg_entries dir) = true.

(** The registry of the specification: the lines of each definition file
    stored under its node name, with the assignment semantics of the
    [nodes] object (a repeated name keeps its first position and its last
    file; ["__proto__"] is not stored). *)
Definition registry_of (dir : list (string * string)) : jsobj (list string) :=
  foldl (fun r e => prop_assign r (basename_wg e.1) (split_lines e.2)) [] (wg_entries dir).

(** An attribute object has distinct keys and holds what [attr_spec]
    gives for [lines]. *)
Definition obj_refines (o : nodeobj) (lines : list string) : Prop :=
  NoDup o.*1 /\ forall k, prop_get o k = attr_spec k lines.

Definition entry_refines (p : string * nodeobj) (q : string * list string) : Prop :=
  p.1 = q.1 /\ obj_refines p.2 q.2.

(** [nodes] has the names of [registry_of dir] in the same order, each
    with an object that refines its lines. *)
Definition registry_spec (nodes : jsobj nodeobj) (dir : list (string * string)) : Prop :=
  Forall2 entry_refines nodes (registry_of dir).

(** A directory with a skipped entry, a definition with an unknown key and
    one without a public key. *)
Definition sample_dir : list (string * string) :=
  [("README", "ignored");
   ("a.wg", "Address = 10.0.0.1/32" +:+ String "010" "PublicKey = pkA" +:+ String "010" "Colour = red");
   ("b.wg", "Address = 10.0.0.2/32")].

(** ** Lemmas *)

Lemma check_must_have_spec file o lines log err :
  (forall k, prop_get o k = attr_spec k lines) ->
  check_must_have file o log err =
  (log ++ missing_warnings file lines, err || bool_decide (missing_warnings file lines <> [])).
Proof.
  intros Ho. unfold check_must_have, missing_warnings, prop_has, must_have. cbn [foldl omap].
  rewrite (Ho "Address"), (Ho "PublicKey"). simpl.
  destruct (attr_spec "Address" lines), (attr_spec "PublicKey" lines); simpl;
    rewrite ?app_nil_r, <- ?app_assoc; repeat case_bool_decide; try done;
    by rewrite ?orb_true_r, ?orb_false_r.
Qed.

Lemma Forall2_entry_refines_set nodes reg k o lines :
  Forall2 entry_refines nodes reg -> obj_refines o lines ->
  Forall2 entry_refines (prop_set nodes k o) (prop_set reg k lines).
Proof.
  induction 1 as [|[n o'] [n' l'] nodes reg [Hn Ho] Hrest IH]; intros Hol; simpl in *.
  - constructor; [split; [done|exact Hol]|constructor].
  - subst n'. case_bool_decide; constructor; [split; done|done|split; done|by apply IH].
Qed.

Lemma Forall2_entry_refines_assign nodes reg k o lines :
  Forall2 entry_refines nodes reg -> obj_refines o lines ->
  Forall2 entry_refines (prop_assign nodes k o) (prop_assign reg k lines).
Proof.
  unfold prop_assign. case_bool_decide; [done|]. apply Forall2_entry_refines_set.
Qed.


Lemma wg_entries_snoc dir e :
  wg_entries (dir ++ [e]) = wg_entries dir ++ (if is_wg e then [e] else []).
Proof.
  unfold wg_entries. rewrite filter_app, filter_cons, filter_nil.
  destruct (is_wg e); [by rewrite decide_True|by rewrite decide_False].
Qed.

Lemma registry_of_snoc dir e :
  registry_of (dir ++ [e]) =
  if is_wg e then prop_assign (registry_of dir) (basename_wg e.1) (split_lines e.2)
  else registry_of dir.
Proof.
  unfold registry_of. rewrite wg_entries_snoc, foldl_app. by destruct (is_wg e).
Qed.

Lemma load_nodes_correct dir :
  dir_proto_free dir ->
  exists st,
    load_nodes dir = Continue st /\
    ld_log st = diagnostics dir /\
    ld_err st = bool_decide (diagnostics dir <> []) /\
    registry_spec (ld_nodes st) dir.
Proof.
  unfold load_nodes, dir_proto_free, diagnostics, registry_spec.
  induction dir as [|e dir IH] using rev_ind; intros Hpf.
  { eexists; split; [reflexivity|]. repeat split; constructor. }
  rewrite registry_of_snoc. rewrite wg_entries_snoc in Hpf |- *.
  rewrite forallb_app in Hpf. apply andb_prop in Hpf as [Hpf He].
  destruct (IH Hpf) as (st & Hrun & Hlog & Herr & Hreg). clear IH.
  rewrite run_fold_snoc, Hrun. destruct e as [file content]. unfold load_file, is_wg in *.
  simpl in *. destruct (ends_with ".wg" file) eqn:Ewg; simpl in *.
  - rewrite andb_true_r in He.
    destruct (parse_lines_correct file (split_lines content) (ld_log st) (ld_err st) He)
      as (ps & Hps & Hobj & Hplog & Hperr).
    unfold parse_file. rewrite Hps. rewrite (check_must_have_spec file _ (split_lines content)) by done.
    eexists; split; [reflexivity|]. simpl.
    rewrite List.map_app, List.concat_app. simpl. rewrite app_nil_r.
    split; [|split].
    + by rewrite Hplog, Hlog, <- app_assoc.
    + rewrite Hperr, Herr, !bool_decide_app_nonempty. unfold file_diagnostics. simpl.
      by rewrite bool_decide_app_nonempty, orb_assoc.
    + apply Forall2_entry_refines_assign; [done|]. split; [|done].
      by apply (parse_lines_NoDup file (split_lines content) (ld_log st) (ld_err st)).
  - eexists; split; [reflexivity|]. rewrite !app_nil_r. done.
Qed.

(** C4 (refinement): loading refines the specification.  When no file
    uses an inherited key, the loop over the directory finishes; the
    console then holds every diagnostic of [diagnostics], in order, [err]
    is set exactly when there is one, and [nodes] has the names of the
    specification's registry, each with an object holding what
    [attr_spec] gives for the file's lines. *)
Theorem load_nodes_refines dir :
  dir_proto_free dir ->
  exists st,
    load_nodes dir = Continue st /\
    ld_log st = diagnostics dir /\
    ld_err st = bool_decide (diagnostics dir <> []) /\
    registry_spec (ld_nodes st) dir.
Proof. by eapply load_nodes_correct. Qed.

Lemma load_nodes_refines_witness :
  dir_proto_free sample_dir /\
  exists st,
    load_nodes sample_dir = Continue st /\
    ld_log st = diagnostics sample_dir /\
    ld_err st = bool_decide (diagnostics sample_dir <> []) /\
    registry_spec (ld_nodes st) sample_dir.
Proof. split; [vm_compute; reflexivity|]. apply load_nodes_refines. vm_compute. reflexivity. Defined.


Definition entry_proto_free (e : string * string) : bool :=
  negb (is_wg e) || forallb proto_free_line (split_lines e.2).

Lemma dir_proto_free_iff dir : dir_proto_free dir <-> forallb entry_proto_free dir = true.
Proof.
  unfold dir_proto_free, wg_entries, entry_proto_free.
  induction dir as [|e dir IH]; [done|]. rewrite filter_cons. simpl.
  destruct (is_wg e); simpl; rewrite ?decide_True, ?decide_False by done; simpl;
    [by rewrite !andb_true_iff, IH|done].
Qed.

Lemma proto_free_line_false line :
  proto_free_line line = false ->
  exists k r, line_entry line = Some (k, r) /\ k ∈ object_prototype_keys.
Proof.
  unfold proto_free_line. destruct (line_entry line) as [[k r]|]; [|done].
  intros H. apply bool_decide_eq_false in H. exists k, r. split; [done|].
  by apply dec_stable.
Qed.

(** A file that uses an inherited key aborts the loading loop: at the
    first such file and its first such line, after printing the
    diagnostics of the files before it and the unknown-key warnings of
    its lines up to that one. *)
Lemma load_nodes_abort_at dir :
  ~ dir_proto_free dir ->
  exists pre file content post lpre line lpost k r st,
    dir = pre ++ (file, content) :: post /\ ends_with ".wg" file = true /\ dir_proto_free pre /\
    split_lines content = lpre ++ line :: lpost /\ proto_free lpre /\
    line_entry line = Some (k, r) /\ k ∈ object_prototype_keys /\
    load_nodes dir = Abort st /\
    ld_log st = diagnostics pre ++ unknown_warnings file lpre ++ [k +:+ " in " +:+ file +:+ " is unfamiliar"].
Proof.
  rewrite dir_proto_free_iff. intros Hdir. apply not_true_is_false in Hdir.
  destruct (forallb_first_false _ _ Hdir) as (pre & [file content] & post & -> & Hpre & He).
  assert (Hpf : dir_proto_free pre) by by apply dir_proto_free_iff.
  destruct (load_nodes_correct pre Hpf) as (st & Hrun & Hlog & _).
  unfold entry_proto_free, is_wg in He. simpl in He.
  apply orb_false_iff in He as [Hwg Hlines]. apply negb_false_iff in Hwg.
  destruct (forallb_first_false _ _ Hlines) as (lpre & l & lpost & Hsplit & Hlpre & Hl).
  destruct (proto_free_line_false l Hl) as (k & r & El & Hk).
  destruct (parse_inherited_abort file lpre l lpost (ld_log st) (ld_err st) k r)
    as (ps & Hps & Hlog'); [done|done|done|].
  eexists pre, file, content, post, lpre, l, lpost, k, r, _.
  do 7 (split; [done|]). split.
  - unfold load_nodes in *. rewrite run_fold_app, Hrun. cbn [run_fold]. unfold load_file.
    rewrite Hwg. simpl. unfold parse_file. rewrite Hsplit, Hps. reflexivity.
  - simpl. by rewrite Hlog', Hlog.
Qed.

Lemma load_nodes_aborts dir :
  ~ dir_proto_free dir -> exists st, load_nodes dir = Abort st.
Proof. intros (? & ? & ? & ? & ? & ? & ? & ? & ? & st & _ & _ & _ & _ & _ & _ & _ & H & _)%load_nodes_abort_at. eauto. Qed.

(** ** Valid runs *)

Lemma registry_of_elem dir n lines :
  (n, lines) ∈ registry_of dir -> exists e, e ∈ wg_entries dir /\ lines = split_lines e.2.
Proof.
  unfold registry_of. set (L := wg_entries dir).
  assert (Hgen : forall l r, (forall e, e ∈ l -> e ∈ L) ->
            (forall n' ls, (n', ls) ∈ r -> exists e, e ∈ L /\ ls = split_lines e.2) ->
            (n, lines) ∈ foldl (fun r e => prop_assign r (basename_wg e.1) (split_lines e.2)) r l ->
            exists e, e ∈ L /\ lines = split_lines e.2).
  { induction l as [|e l IH]; intros r Hl Hr; simpl; [apply Hr|].
    apply IH; [intros e' ?; apply Hl; set_solver|].
    intros n' ls [Heq|Hin]%elem_of_prop_assign; [|by eapply Hr].
    simplify_eq. exists e. split; [apply Hl; set_solver|done]. }
  apply Hgen; [done|set_solver].
Qed.

Lemma unknown_warnings_nil_proto_free file lines :
  unknown_warnings file lines = [] -> proto_free lines.
Proof.
  unfold unknown_warnings, proto_free. induction lines as [|l lines IH]; [done|].
  simpl. unfold unknown_warning at 1, proto_free_line at 1.
  destruct (line_entry l) as [[k r]|]; [|done].
  case_bool_decide as Ha; [|done]. intros Hnil. rewrite IH by done.
  rewrite bool_decide_true; [done|]. intros Hk. by apply (inherited_not_allowed k).
Qed.

Lemma diagnostics_nil dir e :
  diagnostics dir = [] -> e ∈ wg_entries dir ->
  unknown_warnings e.1 (split_lines e.2) = [] /\ missing_warnings e.1 (split_lines e.2) = [].
Proof.
  unfold diagnostics. intros Hnil Hin.
  assert (Hf : file_diagnostics e = []).
  { induction (wg_entries dir) as [|e' l IH]; [set_solver|]. simpl in Hnil.
    apply app_eq_nil in Hnil as [H1 H2]. apply elem_of_cons in Hin as [->|Hin]; auto. }
  unfold file_diagnostics in Hf. by apply app_eq_nil in Hf.
Qed.

(** Without diagnostics no file uses an inherited key: such a key is
    also unknown. *)
Lemma diagnostics_nil_proto_free dir : diagnostics dir = [] -> dir_proto_free dir.
Proof.
  intros Hnil. unfold dir_proto_free. apply forallb_forall. intros e He%list_elem_of_In.
  by apply unknown_warnings_nil_proto_free with e.1, (diagnostics_nil dir e).
Qed.

Lemma obj_refines_typed o lines : obj_refines o lines -> obj_typed o.
Proof.
  intros [Hnd Ho]. split; [done|]. apply Forall_forall. intros [k v] Hin.
  apply val_typed_spec, (attr_spec_typed k lines). rewrite <- Ho. by apply elem_of_prop_get.
Qed.

Lemma missing_warnings_nil file lines :
  missing_warnings file lines = [] ->
  is_Some (attr_spec "Address" lines) /\ is_Some (attr_spec "PublicKey" lines).
Proof.
  unfold missing_warnings. simpl.
  destruct (attr_spec "Address" lines), (attr_spec "PublicKey" lines); simpl; done.
Qed.
