(* ===== verification/Topology.v ===== *)
(** * Topology: which nodes become peers (genConf.js lines 74-78)

    For the node being configured ([nodeName], [nodeObj]) the inner loop
    visits every node of [Object.entries(nodes)] and skips it
    ([skip_peer]) when it is the node itself, when the node's [ConnectTo]
    does not list it, when its [ConnectTo] does not list the node, or when
    neither of the two has an [Endpoint].  [peers_of] is the resulting list
    of peers in iteration order.  The conditions are evaluated left to
    right with JavaScript's short-circuit [||]; [a.ConnectTo.includes(b)]
    throws when the stored value is not an array, which the parsed objects
    never hold. *)

From S2P Require Import Prelude JsObject Parser.

(** [v.includes(s)] on an attribute value: arrays have the method,
    [true.includes] is [undefined] and calling it throws. *)
Definition array_includes (v : jsval) (s : string) : throws bool :=
  match v with
  | VList l => Ret (bool_decide (s ∈ l))
  | VTrue => TypeError
  end.

(** [('ConnectTo' in a && !a.ConnectTo.includes(b))] *)
Definition connect_excludes (a : nodeobj) (b : string) : throws bool :=
  match prop_get a "ConnectTo" with
  | None => Ret false
  | Some v => inc ← array_includes v b; Ret (negb inc)
  end.

(** The [continue] condition of lines 75-78. *)
Definition skip_peer (nodeName : string) (nodeObj : nodeobj)
    (peerName : string) (peerObj : nodeobj) : throws bool :=
  if bool_decide (peerName = nodeName) then Ret true
  else
    (c1 ← connect_excludes nodeObj peerName;
     if (c1 : bool) then Ret true
     else
       (c2 ← connect_excludes peerObj nodeName;
        if (c2 : bool) then Ret true
        else Ret (negb (prop_has peerObj "Endpoint") && negb (prop_has nodeObj "Endpoint")))).

(** The peers the inner loop does not skip, in iteration order. *)
Fixpoint peers_from (nodeName : string) (nodeObj : nodeobj) (l : jsobj nodeobj)
    : throws (jsobj nodeobj) :=
  match l with
  | [] => Ret []
  | (peerName, peerObj) :: l' =>
      skip ← skip_peer nodeName nodeObj peerName peerObj;
      rest ← peers_from nodeName nodeObj l';
      Ret (if (skip : bool) then rest else (peerName, peerObj) :: rest)
  end.

Definition peers_of (nodes : jsobj nodeobj) (nodeName : string) (nodeObj : nodeobj)
    : throws (jsobj nodeobj) :=
  peers_from nodeName nodeObj (entries nodes).

(** ** A sample registry *)

(** [A] has an endpoint, [B] restricts itself to [A], [C] splits its
    output. *)
Definition sample_nodes : jsobj nodeobj :=
  [("A", [("Address", VList ["10.0.0.1/32"]); ("PublicKey", VList ["pkA"]);
          ("Endpoint", VList ["a.example.com:51820"])]);
   ("B", [("Address", VList ["10.0.0.2/32"]); ("PublicKey", VList ["pkB"]);
          ("ConnectTo", VList ["A"])]);
   ("C", [("Address", VList ["10.0.0.3/32"]); ("PublicKey", VList ["pkC"]);
          ("SplitFiles", VTrue)])].

Definition sample_obj (n : string) : nodeobj := default [] (prop_get sample_nodes n).

(** ** The inclusion rule of the specification *)

(** [a]'s [ConnectTo], when present, lists [b]. *)
Definition connect_allows (a : nodeobj) (b : string) : bool :=
  match prop_get a "ConnectTo" with
  | Some v => bool_decide (b ∈ values_of (Some v))
  | None => true
  end.

(** §4.3: [B] is a peer of [A] iff it is another node, each side's
    [ConnectTo] admits the other, and one of them has an [Endpoint]. *)
Definition peer_rule (A : string) (a : nodeobj) (B : string) (b : nodeobj) : bool :=
  bool_decide (B <> A) && connect_allows a B && connect_allows b A &&
  (prop_has b "Endpoint" || prop_has a "Endpoint").

Lemma connect_excludes_typed a b :
  obj_typed a -> connect_excludes a b = Ret (negb (connect_allows a b)).
Proof.
  intros Hty. unfold connect_excludes, connect_allows.
  destruct (prop_get a "ConnectTo") as [v|] eqn:E; [|done].
  apply (typed_prop_get _ _ _ Hty) in E. simpl in E. destruct E as (x & l & ->). done.
Qed.

(** On typed objects the [continue] test never throws. *)
Lemma skip_peer_total A a B b : obj_typed a -> obj_typed b -> exists r, skip_peer A a B b = Ret r.
Proof.
  intros Ha Hb. unfold skip_peer. rewrite ?connect_excludes_typed by done. simpl.
  repeat case_match; eauto.
Qed.

(** So neither does the inner loop, and it keeps entries of the list. *)
Lemma peers_from_total A a l :
  obj_typed a -> Forall (fun p => obj_typed p.2) l ->
  exists peers, peers_from A a l = Ret peers /\ forall p, p ∈ peers -> p ∈ l.
Proof.
  intros Ha. induction 1 as [|[B b] l Hb Hl IH]; simpl; [by exists []; split; [|set_solver]|].
  destruct (skip_peer_total A a B b Ha Hb) as [r ->]. destruct IH as (peers & -> & Hin). simpl.
  exists (if r then peers else (B, b) :: peers). split; [done|].
  destruct r; intros p; [set_solver|]. intros [->|?]%elem_of_cons; set_solver.
Qed.

(** On typed objects the [continue] test is the negation of the rule. *)
Lemma skip_peer_rule A a B b :
  obj_typed a -> obj_typed b -> skip_peer A a B b = Ret (negb (peer_rule A a B b)).
Proof.
  intros Ha Hb. unfold skip_peer, peer_rule.
  rewrite !connect_excludes_typed by done. simpl.
  case_bool_decide; simpl; [by rewrite bool_decide_false by congruence|].
  rewrite bool_decide_true by done. simpl.
  destruct (connect_allows a B), (connect_allows b A); simpl; try done.
  by destruct (prop_has b "Endpoint"), (prop_has a "Endpoint").
Qed.

Lemma peer_rule_sym A a B b : peer_rule A a B b = peer_rule B b A a.
Proof.
  unfold peer_rule. rewrite (bool_decide_ext (B <> A) (A <> B)) by naive_solver.
  destruct (bool_decide (A <> B)), (connect_allows a B), (connect_allows b A),
    (prop_has b "Endpoint"), (prop_has a "Endpoint"); done.
Qed.

(** C7 (functional): the peer decision is symmetric.  For two typed
    attribute objects, the test that decides whether [B] is skipped when
    configuring [A] gives the same answer as the one that decides whether
    [A] is skipped when configuring [B] (§8, "symmetry of inclusion"). *)
Theorem skip_peer_symmetric A a B b :
  obj_typed a -> obj_typed b -> skip_peer A a B b = skip_peer B b A a.
Proof.
  intros Ha Hb. rewrite !skip_peer_rule by done. by rewrite peer_rule_sym.
Qed.

Lemma skip_peer_symmetric_witness :
  obj_typed (sample_obj "A") /\ obj_typed (sample_obj "B") /\
  skip_peer "A" (sample_obj "A") "B" (sample_obj "B") = skip_peer "B" (sample_obj "B") "A" (sample_obj "A").
Proof.
  split; [by_decide|]. split; [by_decide|]. apply skip_peer_symmetric; by_decide.
Defined.


Lemma peers_of_filter nodes A a :
  obj_typed a -> Forall (fun p => obj_typed p.2) nodes ->
  peers_of nodes A a = Ret (filter (fun p => peer_rule A a p.1 p.2 = true) (entries nodes)).
Proof.
  intros Ha Hall. rewrite Forall_forall in Hall. unfold peers_of.
  assert (Hent : forall p, p ∈ entries nodes -> obj_typed p.2)
    by (intros p Hp; apply Hall; by apply elem_of_entries).
  induction (entries nodes) as [|[B b] l IH]; [done|]. simpl.
  rewrite skip_peer_rule by (done || (apply (Hent (B, b)); set_solver)).
  rewrite IH by (intros p Hp; apply Hent; set_solver). simpl.
  rewrite filter_cons. simpl. by destruct (peer_rule A a B b).
Qed.

(** C6 (refinement): the inner loop selects exactly the peers the rule of
    §4.3 admits, in [Object.entries] order, when every node is typed. *)
Theorem peers_of_spec nodes A a :
  obj_typed a -> Forall (fun p => obj_typed p.2) nodes ->
  peers_of nodes A a = Ret (filter (fun p => peer_rule A a p.1 p.2 = true) (entries nodes)).
Proof. by eapply peers_of_filter. Qed.

Lemma peers_of_spec_witness :
  obj_typed (sample_obj "C") /\ Forall (fun p => obj_typed p.2) sample_nodes /\
  peers_of sample_nodes "C" (sample_obj "C") =
    Ret (filter (fun p => peer_rule "C" (sample_obj "C") p.1 p.2 = true) (entries sample_nodes)).
Proof. split; [by_decide|]. split; [by_decide|]. apply peers_of_spec; by_decide. Defined.


(** C8 (safety): peering is mutual.  For two typed nodes of [nodes], [B]
    is among the peers of [A] exactly when [A] is among the peers of [B],
    so every tunnel is configured at both ends. *)
Theorem peers_of_mutual nodes A a B b :
  Forall (fun p => obj_typed p.2) nodes ->
  (A, a) ∈ nodes -> (B, b) ∈ nodes ->
  exists pa pb, peers_of nodes A a = Ret pa /\ peers_of nodes B b = Ret pb /\
    ((B, b) ∈ pa <-> (A, a) ∈ pb).
Proof.
  intros Hall HA HB. pose proof Hall as Hall'. rewrite Forall_forall in Hall'.
  assert (Ha : obj_typed a) by exact (Hall' _ HA).
  assert (Hb : obj_typed b) by exact (Hall' _ HB).
  do 2 eexists. rewrite !peers_of_filter by done. do 2 (split; [reflexivity|]).
  rewrite !list_elem_of_filter, !elem_of_entries. simpl. rewrite peer_rule_sym. naive_solver.
Qed.

Lemma peers_of_mutual_witness :
  Forall (fun p => obj_typed p.2) sample_nodes /\
  exists pa pb, peers_of sample_nodes "A" (sample_obj "A") = Ret pa /\
    peers_of sample_nodes "B" (sample_obj "B") = Ret pb /\
    (("B", sample_obj "B") ∈ pa <-> ("A", sample_obj "A") ∈ pb).
Proof. split; [by_decide|]. apply peers_of_mutual; by_decide. Defined.
