(* ===== verification/Render.v ===== *)
(** * Render: the configuration text (genConf.js lines 61-92)

    For every node of [Object.entries(nodes)] ([render_all]):
    - the [Interface] block ([render_iface], lines 62-70): a header, a
      placeholder private key when the node has none, then one
      [key = value] line per value of every attribute outside
      [exclude_interface], in [Object.entries] order;
    - one [Peer] block per peer that the inner loop does not skip
      ([peer_section], lines 79-86): the peer's first public key and
      address, its first [Network], the four half-space routes when the
      node has [DefaultRoute], the peer's first [Endpoint] and the node's
      first [PersistentKeepalive];
    - the writes ([render_node]): with [SplitFiles], one file
      [node:peer.conf] per peer, written right after that peer's block
      was appended to the accumulated [peers] text, so it holds the
      interface and every block so far; without it, one file
      [node.conf] with the interface and all blocks.
    A write is the pair of a file name under [conf_output] and its text;
    the output state is the list of writes in the order they happen.
    Reading [v[0]] of an attribute that is absent throws, of an empty
    array or of [true] gives the text ["undefined"] ([first_value]). *)

From S2P Require Import Prelude JsObject Parser Topology.

Abbreviation write := (string * string)%type.

Definition nl : string := String "010" EmptyString.

(** [`${v[0]}`] for the attribute value [v] ([None] when absent). *)
Definition first_value (v : option jsval) : throws string :=
  match v with
  | None => TypeError
  | Some (VList (x :: _)) => Ret x
  | Some (VList []) => Ret "undefined"
  | Some VTrue => Ret "undefined"
  end.

(** ** The Interface block, lines 62-70 *)

Definition iface_head (nodeObj : nodeobj) : string :=
  "[Interface]" +:+ nl +:+
  (if prop_has nodeObj "PrivateKey" then ""
   else "PrivateKey = >>>REPLACE WITH PRIVATE KEY<<<" +:+ nl).

(** [for (const data of value) iface += `${key} = ${data}\n`] *)
Definition iface_values (key : string) (acc : string) (vs : list string) : string :=
  foldl (fun acc data => acc +:+ key +:+ " = " +:+ data +:+ nl) acc vs.

Fixpoint iface_from (acc : string) (l : jsobj jsval) : throws string :=
  match l with
  | [] => Ret acc
  | (key, value) :: l' =>
      if bool_decide (key ∈ exclude_interface) then iface_from acc l'
      else match value with
           | VList vs => iface_from (iface_values key acc vs) l'
           | VTrue => TypeError
           end
  end.

Definition render_iface (nodeObj : nodeobj) : throws string :=
  iface_from (iface_head nodeObj) (entries nodeObj).

(** ** One Peer block, lines 79-86 *)

Definition default_route_tail : string :=
  ", 0.0.0.0/1, 128.0.0.0/1,  0::/1, 8000::/1" +:+ nl.

(** [('k' in o ? f(o['k'][0]) : '')] *)
Definition if_present (o : nodeobj) (k : string) (f : string -> string) : throws string :=
  if prop_has o k then (x ← first_value (prop_get o k); Ret (f x)) else Ret "".

Definition peer_section (nodeObj : nodeobj) (peerName : string) (peerObj : nodeobj)
    : throws string :=
  pk ← first_value (prop_get peerObj "PublicKey");
  addr ← first_value (prop_get peerObj "Address");
  net ← if_present peerObj "Network" (fun n => ", " +:+ n);
  ep ← if_present peerObj "Endpoint" (fun e => "Endpoint = " +:+ e +:+ nl);
  ka ← if_present nodeObj "PersistentKeepalive" (fun k => "PersistentKeepalive = " +:+ k +:+ nl);
  Ret (nl +:+ "# " +:+ peerName +:+ nl +:+
       "[Peer]" +:+ nl +:+
       "PublicKey = " +:+ pk +:+ nl +:+
       "AllowedIPs = " +:+ addr +:+ net +:+
       (if prop_has nodeObj "DefaultRoute" then default_route_tail else nl) +:+
       ep +:+ ka).

(** ** The loops and the writes, lines 72-91 *)

Definition split_file_name (nodeName peerName : string) : string :=
  nodeName +:+ ":" +:+ peerName +:+ ".conf".

Definition node_file_name (nodeName : string) : string := nodeName +:+ ".conf".

(** One iteration of the inner loop; the state is the accumulated [peers]
    text and the writes so far. *)
Definition peer_step (nodeName : string) (nodeObj : nodeobj) (iface : string)
    (st : string * list write) (peer : string * nodeobj) : run (string * list write) :=
  let '(peers, ws) := st in
  let '(peerName, peerObj) := peer in
  skip <-! skip_peer nodeName nodeObj peerName peerObj @ st ;;
  if skip then Continue st
  else
    sec <-! peer_section nodeObj peerName peerObj @ st ;;
    let peers' := peers +:+ sec in
    Continue (peers',
              if prop_has nodeObj "SplitFiles"
              then ws ++ [(split_file_name nodeName peerName, iface +:+ peers')]
              else ws).

(** One iteration of the outer loop. *)
Definition render_node (nodes : jsobj nodeobj) (ws : list write) (node : string * nodeobj)
    : run (list write) :=
  let '(nodeName, nodeObj) := node in
  iface <-! render_iface nodeObj @ ws ;;
  match run_fold (peer_step nodeName nodeObj iface) (entries nodes) ("", ws) with
  | Abort (_, ws') => Abort ws'
  | Continue (peers, ws') =>
      Continue (if prop_has nodeObj "SplitFiles" then ws'
                else ws' ++ [(node_file_name nodeName, iface +:+ peers)])
  end.

Definition render_all (nodes : jsobj nodeobj) : run (list write) :=
  run_fold (render_node nodes) (entries nodes) [].

(** ** Reference: the sections of the selected peers

    The loop of lines 72-91 interleaves the peer test, the text of the
    section and the writes, and carries the text in the accumulator
    [peers].  The reference below first selects the peers ([peers_of]),
    then renders each section ([sections_for]), then lays out the files
    ([node_output]): the [i]-th split file holds the interface and the
    first [i + 1] sections. *)

Fixpoint sections_for (a : nodeobj) (peers : jsobj nodeobj) : throws (list (string * string)) :=
  match peers with
  | [] => Ret []
  | (B, b) :: peers' =>
      s ← peer_section a B b;
      rest ← sections_for a peers';
      Ret ((B, s) :: rest)
  end.

Definition node_sections (nodes : jsobj nodeobj) (A : string) (a : nodeobj)
    : throws (list (string * string)) :=
  peers ← peers_of nodes A a; sections_for a peers.

Definition split_outputs (A iface acc : string) (secs : list (string * string)) : list write :=
  imap (fun i p => (split_file_name A p.1, iface +:+ acc +:+ str_concat (map snd (take (S i) secs))))
       secs.

Definition node_output (A : string) (a : nodeobj) (iface : string)
    (secs : list (string * string)) : list write :=
  if prop_has a "SplitFiles" then split_outputs A iface "" secs
  else [(node_file_name A, iface +:+ str_concat (map snd secs))].

(** The reference's results on the sample registry, computed once. *)
Definition ret_or {A} (d : A) (m : throws A) : A := match m with Ret a => a | TypeError => d end.
Definition sample_iface : string := Eval vm_compute in ret_or "" (render_iface (sample_obj "C")).
Definition sample_secs : list (string * string) :=
  Eval vm_compute in ret_or [] (node_sections sample_nodes "C" (sample_obj "C")).

(** ** The loop against the reference *)

Lemma split_outputs_cons A iface acc B s secs :
  split_outputs A iface acc ((B, s) :: secs) =
  (split_file_name A B, iface +:+ acc +:+ s) :: split_outputs A iface (acc +:+ s) secs.
Proof.
  unfold split_outputs. rewrite imap_cons. f_equal.
  - simpl. unfold str_concat. simpl. by rewrite append_empty_r.
  - apply imap_ext. intros i [B' s'] _. simpl. unfold str_concat. simpl.
    by rewrite append_assoc.
Qed.

Lemma peer_loop A a iface l acc ws peers secs :
  peers_from A a l = Ret peers -> sections_for a peers = Ret secs ->
  run_fold (peer_step A a iface) l (acc, ws) =
  Continue (acc +:+ str_concat (map snd secs),
            ws ++ (if prop_has a "SplitFiles" then split_outputs A iface acc secs else [])).
Proof.
  revert acc ws peers secs.
  induction l as [|[B b] l IH]; intros acc ws peers secs Hp Hs; simpl in Hp.
  - simplify_eq/=. rewrite append_empty_r.
    destruct (prop_has a "SplitFiles"); simpl; by rewrite app_nil_r.
  - apply throws_bind_Ret in Hp as (sk & Hsk & Hp).
    apply throws_bind_Ret in Hp as (rest & Hrest & Hp). simplify_eq/=.
    rewrite Hsk. simpl. destruct sk; [by eapply IH|].
    simpl in Hs. apply throws_bind_Ret in Hs as (s & Hsec & Hs).
    apply throws_bind_Ret in Hs as (secs' & Hsecs & Hs). simplify_eq/=.
    rewrite Hsec. simpl. rewrite (IH _ _ rest secs') by done.
    unfold str_concat. simpl. rewrite append_assoc.
    destruct (prop_has a "SplitFiles"); [|by rewrite app_nil_r].
    by rewrite split_outputs_cons, <- app_assoc.
Qed.

Lemma render_node_reference nodes ws A a iface secs :
  render_iface a = Ret iface -> node_sections nodes A a = Ret secs ->
  render_node nodes ws (A, a) = Continue (ws ++ node_output A a iface secs).
Proof.
  intros Hi Hs. unfold render_node, node_sections, peers_of in *. rewrite Hi. simpl.
  apply throws_bind_Ret in Hs as (peers & Hp & Hs).
  rewrite (peer_loop A a iface _ "" ws peers secs Hp Hs). unfold node_output.
  destruct (prop_has a "SplitFiles"); [done|]. by rewrite app_nil_r.
Qed.

(** C9 (equivalence): the per-node loop computes the reference.  When the
    interface block and the selected peers' sections render without an
    exception, one iteration of the outer loop appends exactly
    [node_output]: with [SplitFiles] one file per selected peer, the
    [i]-th holding the interface and the first [i + 1] sections; without
    it one file with the interface and every section. *)
Theorem render_node_spec nodes ws A a iface secs :
  render_iface a = Ret iface -> node_sections nodes A a = Ret secs ->
  render_node nodes ws (A, a) = Continue (ws ++ node_output A a iface secs).
Proof. by eapply render_node_reference. Qed.

Lemma render_node_spec_witness :
  render_iface (sample_obj "C") = Ret sample_iface /\
  node_sections sample_nodes "C" (sample_obj "C") = Ret sample_secs /\
  render_node sample_nodes [] ("C", sample_obj "C") =
    Continue ([] ++ node_output "C" (sample_obj "C") sample_iface sample_secs).
Proof.
  split; [vm_compute; reflexivity|]. split; [vm_compute; reflexivity|].
  apply render_node_spec; vm_compute; reflexivity.
Defined.


(** ** Every node, against the reference *)

Definition render_reference (nodes : jsobj nodeobj) : throws (list write) :=
  outs ← mapM (fun '(A, a) => iface ← render_iface a; secs ← node_sections nodes A a;
                              Ret (node_output A a iface secs))
              (entries nodes);
  Ret (List.concat outs).

Definition sample_writes : list write :=
  Eval vm_compute in ret_or [] (render_reference sample_nodes).

Lemma render_all_loop nodes l ws outs :
  mapM (fun '(A, a) => iface ← render_iface a; secs ← node_sections nodes A a;
                       Ret (node_output A a iface secs)) l = Ret outs ->
  run_fold (render_node nodes) l ws = Continue (ws ++ List.concat outs).
Proof.
  revert ws outs. induction l as [|[A a] l IH]; intros ws outs Hm; simpl in Hm.
  - change (Ret [] = Ret outs) in Hm. simplify_eq/=. by rewrite app_nil_r.
  - apply throws_bind_Ret in Hm as (o & Ho & Hm).
    apply throws_bind_Ret in Hm as (os & Hos & Hm).
    change (Ret (o :: os) = Ret outs) in Hm. injection Hm as <-.
    apply throws_bind_Ret in Ho as (iface & Hi & Ho).
    apply throws_bind_Ret in Ho as (secs & Hs & Ho). injection Ho as <-.
    cbn [run_fold]. rewrite (render_node_reference nodes ws A a iface secs) by done.
    rewrite (IH _ os) by done. simpl. by rewrite app_assoc.
Qed.

Lemma render_all_reference nodes ws :
  render_reference nodes = Ret ws -> render_all nodes = Continue ws.
Proof.
  unfold render_reference, render_all. intros H.
  apply throws_bind_Ret in H as (outs & Hm & H). simplify_eq/=.
  by rewrite (render_all_loop nodes _ [] outs Hm).
Qed.

(** C10 (equivalence): the whole rendering phase performs the writes of
    the reference, node by node in [Object.entries] order, whenever the
    reference renders without an exception. *)
Theorem render_all_spec nodes ws :
  render_reference nodes = Ret ws -> render_all nodes = Continue ws.
Proof. by eapply render_all_reference. Qed.

Lemma render_all_spec_witness :
  render_reference sample_nodes = Ret sample_writes /\
  render_all sample_nodes = Continue sample_writes.
Proof. split; [vm_compute; reflexivity|]. apply render_all_spec. vm_compute. reflexivity. Defined.


(** ** Rendering never throws on loaded nodes *)

(** What the renderer needs of a node: the type invariant, an [Address]
    and a [PublicKey]. *)
Definition node_ok (o : nodeobj) : Prop :=
  obj_typed o /\ prop_has o "Address" = true /\ prop_has o "PublicKey" = true.

#[export] Instance node_ok_dec o : Decision (node_ok o).
Proof. unfold node_ok. apply _. Defined.

Lemma first_value_typed o k :
  obj_typed o -> is_flag_key k = false -> prop_has o k = true ->
  exists x, first_value (prop_get o k) = Ret x.
Proof.
  intros Hty Hf Hk. unfold prop_has in Hk. destruct (prop_get o k) eqn:E; [|done].
  apply (typed_prop_get _ _ _ Hty) in E. rewrite Hf in E. destruct E as (x & l & ->). eauto.
Qed.

Lemma if_present_typed o k f :
  obj_typed o -> is_flag_key k = false -> exists s, if_present o k f = Ret s.
Proof.
  intros Hty Hf. unfold if_present. destruct (prop_has o k) eqn:E; [|eauto].
  destruct (first_value_typed o k) as [x ->]; eauto.
Qed.

Lemma peer_section_ok a B b : obj_typed a -> node_ok b -> exists s, peer_section a B b = Ret s.
Proof.
  intros Ha (Hb & Haddr & Hpk). unfold peer_section.
  destruct (first_value_typed b "PublicKey") as [pk ->]; [done..|]. simpl.
  destruct (first_value_typed b "Address") as [addr ->]; [done..|]. simpl.
  edestruct (if_present_typed b "Network") as [net ->]; [done..|]. simpl.
  edestruct (if_present_typed b "Endpoint") as [ep ->]; [done..|]. simpl.
  edestruct (if_present_typed a "PersistentKeepalive") as [ka ->]; [done..|]. simpl. eauto.
Qed.

Lemma iface_from_ok acc l :
  (forall k v, (k, v) ∈ l -> k ∉ exclude_interface -> exists vs, v = VList vs) ->
  exists s, iface_from acc l = Ret s.
Proof.
  revert acc. induction l as [|[k v] l IH]; intros acc Hl; simpl; [eauto|].
  case_bool_decide as Hk; [apply IH; set_solver|].
  destruct (Hl k v) as [vs ->]; [set_solver|done|]. apply IH. set_solver.
Qed.

Lemma render_iface_ok o : obj_typed o -> exists s, render_iface o = Ret s.
Proof.
  intros Hty. apply iface_from_ok. intros k v Hin Hk. apply (proj1 (elem_of_entries _ _)) in Hin.
  pose proof (obj_typed_elem o k v Hty Hin) as Hv. destruct (is_flag_key k) eqn:Hf.
  - destruct Hk. unfold is_flag_key in Hf. unfold exclude_interface.
    repeat case_bool_decide; simplify_eq/=; set_solver.
  - destruct Hv as (x & l & ->). eauto.
Qed.

Lemma sections_for_ok a peers :
  obj_typed a -> (forall p, p ∈ peers -> node_ok p.2) -> exists secs, sections_for a peers = Ret secs.
Proof.
  intros Ha. induction peers as [|[B b] peers IH]; intros Hp; simpl; [eauto|].
  destruct (peer_section_ok a B b) as [s ->]; [done|apply (Hp (B, b)); set_solver|]. simpl.
  destruct IH as [secs ->]; [intros p ?; apply Hp; set_solver|]. simpl. eauto.
Qed.

Lemma render_reference_total nodes :
  Forall (fun p => node_ok p.2) nodes -> exists ws, render_reference nodes = Ret ws.
Proof.
  intros Hall. rewrite Forall_forall in Hall. unfold render_reference.
  assert (Hent : forall p, p ∈ entries nodes -> node_ok p.2)
    by (intros p Hp; apply Hall; by apply elem_of_entries).
  assert (Hty : forall p, p ∈ nodes -> obj_typed p.2) by (intros p Hp; apply Hall, Hp).
  cut (exists outs, mapM (fun '(A, a) => iface ← render_iface a; secs ← node_sections nodes A a;
                                         Ret (node_output A a iface secs)) (entries nodes) = Ret outs).
  { intros [outs ->]. simpl. eauto. }
  apply mapM_throws_Ret. intros [A a] Hin. pose proof (Hent _ Hin) as Ha.
  destruct (render_iface_ok a) as [iface ->]; [apply Ha|]. simpl.
  unfold node_sections, peers_of.
  destruct (peers_from_total A a (entries nodes)) as (peers & -> & Hpeers); [apply Ha| |].
  { apply Forall_forall. intros p Hp. apply Hent, Hp. }
  simpl. destruct (sections_for_ok a peers) as [secs ->]; [apply Ha|intros p Hp; by apply Hent, Hpeers|].
  simpl. eauto.
Qed.

(** C11 (safety): rendering never throws.  When every node is typed and
    has an [Address] and a [PublicKey], the reference renders every node
    without an exception, so (by [render_all_spec]) the rendering phase
    completes and performs the reference's writes. *)
Theorem render_reference_ok nodes :
  Forall (fun p => node_ok p.2) nodes -> exists ws, render_reference nodes = Ret ws.
Proof. by eapply render_reference_total. Qed.

Lemma render_reference_ok_witness :
  Forall (fun p => node_ok p.2) sample_nodes /\ exists ws, render_reference sample_nodes = Ret ws.
Proof. split; [by_decide|]. apply render_reference_ok. by_decide. Defined.


Lemma split_outputs_names A iface acc secs :
  map fst (split_outputs A iface acc secs) = map (fun p => split_file_name A p.1) secs.
Proof.
  revert acc. induction secs as [|[B s] secs IH]; intros acc; [done|].
  rewrite split_outputs_cons. simpl. by rewrite IH.
Qed.

Lemma sections_for_names a peers secs : sections_for a peers = Ret secs -> secs.*1 = peers.*1.
Proof.
  revert secs. induction peers as [|[B b] peers IH]; intros secs; simpl; [by intros [= <-]|].
  intros H. apply throws_bind_Ret in H as (s & _ & H).
  apply throws_bind_Ret in H as (rest & Hr & [= Hs]). subst. simpl. f_equal. by apply IH.
Qed.

(** C26 (functional): the files of a split node.  A node with
    [SplitFiles] writes one file [node:peer.conf] per selected peer, in
    the order of the peers, and nothing else; in particular a split node
    without peers gets no file at all. *)
Theorem render_split_files nodes ws A a iface peers secs :
  prop_has a "SplitFiles" = true -> render_iface a = Ret iface ->
  peers_of nodes A a = Ret peers -> sections_for a peers = Ret secs ->
  exists ws', render_node nodes ws (A, a) = Continue (ws ++ ws') /\
    map fst ws' = map (fun p => split_file_name A p.1) peers.
Proof.
  intros Hs Hi Hp Hsec. exists (node_output A a iface secs). split.
  - apply render_node_reference; [done|]. unfold node_sections. by rewrite Hp.
  - unfold node_output. rewrite Hs, split_outputs_names.
    assert (Hm : forall X (l : list (string * X)),
               map (fun p => split_file_name A p.1) l = map (split_file_name A) l.*1)
      by (intros X l; induction l as [|? ? IH]; simpl; [done|by rewrite IH]).
    by rewrite !Hm, (sections_for_names _ _ _ Hsec).
Qed.

Lemma render_split_files_witness :
  prop_has (sample_obj "C") "SplitFiles" = true /\ render_iface (sample_obj "C") = Ret sample_iface /\
  peers_of sample_nodes "C" (sample_obj "C") = Ret [("A", sample_obj "A")] /\
  sections_for (sample_obj "C") [("A", sample_obj "A")] = Ret sample_secs /\
  exists ws', render_node sample_nodes [] ("C", sample_obj "C") = Continue ([] ++ ws') /\
    map fst ws' = map (fun p => split_file_name "C" p.1) [("A", sample_obj "A")].
Proof.
  do 4 (split; [vm_compute; reflexivity|]).
  apply (render_split_files sample_nodes [] "C" (sample_obj "C") sample_iface
           [("A", sample_obj "A")] sample_secs); vm_compute; reflexivity.
Defined.
