(* ===== verification/Reread.v ===== *)
(** * Reading a rendered Interface section back

    The Interface block the renderer writes (lines 62-70) has the syntax
    of a definition file: [key = value] lines.  This file shows that the
    parser (lines 39-53) reads such a block back into the attributes it
    came from.  The first part is an invariant of parsing: every key the
    parser stores is trimmed, without [=] or LF and not an inherited name,
    and every value it stores is trimmed and without LF or CR
    ([obj_clean]); so does every node of the registry.  The second part
    computes the rendered block as a list of lines ([iface_lines]) and
    shows the round trip. *)

From S2P Require Import Prelude StringLaws JsObject Parser Registry Topology Render.

(** ** What the parser stores *)

Definition key_clean (k : string) : bool :=
  bool_decide (trim k = k) && negb (includes_char "=" k) && negb (includes_char "010" k) &&
  bool_decide (k ∉ object_prototype_keys).

Definition value_clean (d : string) : bool :=
  bool_decide (trim d = d) && negb (includes_char "010" d) && negb (includes_char "013" d).

Definition entry_clean (kv : string * jsval) : Prop :=
  key_clean kv.1 = true /\ Forall (fun d => value_clean d = true) (values_of (Some kv.2)).

Definition obj_clean (o : nodeobj) : Prop := obj_typed o /\ Forall entry_clean o.

#[export] Instance obj_clean_dec o : Decision (obj_clean o).
Proof. unfold obj_clean, entry_clean. apply _. Defined.

Lemma value_clean_trim x :
  includes_char "010" x = false -> includes_char "013" x = false -> value_clean (trim x) = true.
Proof.
  intros H1 H2. unfold value_clean. rewrite trim_idem, bool_decide_true by done.
  destruct (includes_char "010" (trim x)) eqn:E1; [by rewrite includes_char_trim in H1|].
  destruct (includes_char "013" (trim x)) eqn:E2; [by rewrite includes_char_trim in H2|]. done.
Qed.

(** A line without LF that has an [=] yields a clean key (up to the
    inherited names) and a rest without line terminators. *)
Lemma line_entry_clean line k r :
  includes_char "010" line = false -> line_entry line = Some (k, r) ->
  trim k = k /\ includes_char "=" k = false /\ includes_char "010" k = false /\
  includes_char "010" r = false /\ includes_char "013" r = false.
Proof.
  unfold line_entry, split_key_rest. intros Hl.
  destruct (break_char "=" line) as [[rk a]|] eqn:E; [|done]. intros [= <- <-].
  apply break_char_spec in E as [-> Hrk]. rewrite includes_char_app in Hl.
  apply orb_false_iff in Hl as [Hl _].
  rewrite trim_idem, take_line_no_lf, take_line_no_cr.
  destruct (includes_char "=" (trim rk)) eqn:E1; [by rewrite includes_char_trim in Hrk|].
  destruct (includes_char "010" (trim rk)) eqn:E2; [by rewrite includes_char_trim in Hl|]. done.
Qed.

(** With distinct keys, a property of every entry is a property of every
    lookup. *)
Lemma Forall_prop_get {V} (P : string * V -> Prop) (o : jsobj V) :
  NoDup o.*1 -> Forall P o <-> forall k v, prop_get o k = Some v -> P (k, v).
Proof.
  intros Hnd. rewrite Forall_forall. split.
  - intros H k v Hk. by apply H, prop_get_elem_of.
  - intros H [k v] Hin. by apply H, elem_of_prop_get.
Qed.

(** The values one more line adds to [cur] are clean when [cur] is and the
    rest has no line terminator. *)
Lemma attr_step_clean k cur r v :
  includes_char "010" r = false -> includes_char "013" r = false ->
  Forall (fun d => value_clean d = true) (values_of cur) ->
  attr_step k cur r = Some v -> Forall (fun d => value_clean d = true) (values_of (Some v)).
Proof.
  intros H1 H2 Hcur. unfold attr_step.
  assert (Hr : value_clean (trim r) = true) by by apply value_clean_trim.
  case_bool_decide; [|destruct (is_flag_key k); [case_bool_decide|]]; intros [= <-];
    simpl; rewrite ?Forall_app; try done; try split; try done; [|by constructor].
  unfold connect_names. apply Forall_fmap, Forall_forall. intros p Hp. simpl.
  apply value_clean_trim;
    (destruct (includes_char _ p) eqn:E; [|done]);
    [rewrite (includes_char_split "010" "," r p) in H1 | rewrite (includes_char_split "013" "," r p) in H2];
    done.
Qed.

Lemma parse_line_keeps_clean file st line st' :
  includes_char "010" line = false -> obj_clean (ps_obj st) ->
  parse_line file st line = Continue st' -> obj_clean (ps_obj st').
Proof.
  intros Hl [Hty Hcl] Hrun. split; [by eapply parse_line_keeps_typed|].
  destruct (line_entry line) as [[k r]|] eqn:El;
    [|rewrite parse_line_no_entry in Hrun by done; by simplify_eq].
  assert (Hnd : NoDup (ps_obj st).*1) by apply Hty.
  pose proof (proj1 (Forall_prop_get _ _ Hnd) Hcl) as Hget.
  destruct (decide (k ∈ object_prototype_keys)) as [Hp|Hp].
  { destruct (prop_get (ps_obj st) k) as [v|] eqn:Ek.
    - apply Hget in Ek as [Hk _]. unfold key_clean in Hk. simpl in Hk.
      rewrite (bool_decide_false (k ∉ object_prototype_keys)), andb_false_r in Hk by set_solver.
      done.
    - destruct (parse_line_inherited file st line k r) as (s & Hs & _); congruence. }
  destruct (line_entry_clean line k r Hl El) as (Hk1 & Hk2 & Hk3 & Hr1 & Hr2).
  destruct (parse_line_entry file st line k r El Hp) as (st'' & Hrun' & Hst & _).
  { intros Hf Hv. apply (typed_prop_get _ _ _ Hty) in Hv. rewrite Hf in Hv. naive_solver. }
  rewrite Hrun' in Hrun. simplify_eq.
  apply Forall_prop_get; [by apply (parse_line_NoDup file st line)|].
  intros k' v. rewrite Hst. case_bool_decide as Hk'; [subst k'|apply Hget].
  intros Hv. split.
  - unfold key_clean. simpl. rewrite Hk2, Hk3, !bool_decide_true by done. done.
  - apply (attr_step_clean k (prop_get (ps_obj st) k) r); [done|done| |done].
    destruct (prop_get (ps_obj st) k) as [w|] eqn:Ew; [|constructor]. by apply Hget in Ew as [_ ?].
Qed.

(** C20 (invariant): parsing keeps stored keys and values clean.  A line
    without LF that does not throw leaves a clean attribute object clean:
    a new key is the trimmed text before the first [=], a new value a
    trimmed piece of what the capture group took, and an inherited name
    is never stored because spreading it throws. *)
Theorem parse_line_clean file st line st' :
  includes_char "010" line = false -> obj_clean (ps_obj st) ->
  parse_line file st line = Continue st' -> obj_clean (ps_obj st').
Proof. by eapply parse_line_keeps_clean. Qed.

Lemma includes_char_drop_cr c s : includes_char c (drop_cr s) = true -> includes_char c s = true.
Proof.
  induction s as [|d [|e s] IH]; simpl; [done| |].
  - case_bool_decide; simpl; [done|]. by rewrite orb_false_r.
  - intros [Hd|Hr]%orb_true_iff; [by rewrite Hd|].
    change (includes_char c (String e s)) with (bool_decide (e = c) || includes_char c s) in IH.
    rewrite IH by done. apply orb_true_r.
Qed.

Lemma Forall_map_but_last {A} (P : A -> Prop) (f : A -> A) l :
  (forall x, P x -> P (f x)) -> Forall P l -> Forall P (map_but_last f l).
Proof.
  intros Hf. induction l as [|x [|y l] IH]; intros Hl; [done|done|].
  inversion Hl; subst. change (Forall P (f x :: map_but_last f (y :: l))). constructor; auto.
Qed.

(** The lines of a file hold no LF. *)
Lemma split_lines_no_lf content : Forall (fun l => includes_char "010" l = false) (split_lines content).
Proof.
  apply Forall_map_but_last; [|apply split_char_no_sep].
  intros x Hx. destruct (includes_char "010" (drop_cr x)) eqn:E; [|done].
  by rewrite includes_char_drop_cr in Hx.
Qed.

Lemma parse_file_clean file content log err st :
  parse_file file content log err = Continue st -> obj_clean (ps_obj st).
Proof.
  apply (run_fold_preserves_in (fun s => obj_clean (ps_obj s))); [|by_decide].
  intros s line s' Hs Hin. apply parse_line_keeps_clean; [|done].
  by apply (proj1 (Forall_forall _ _) (split_lines_no_lf content)).
Qed.

Lemma load_nodes_wf dir st :
  load_nodes dir = Continue st ->
  NoDup (ld_nodes st).*1 /\ Forall (fun p => obj_clean p.2) (ld_nodes st).
Proof.
  apply (run_fold_preserves (fun s => NoDup (ld_nodes s).*1 /\ Forall (fun p => obj_clean p.2) (ld_nodes s)));
    [|split; constructor].
  intros s [file content] s' [Hnd Hall]. unfold load_file.
  destruct (negb (ends_with ".wg" file)); [by intros [= <-]|].
  destruct (parse_file file content (ld_log s) (ld_err s)) as [ps|ps] eqn:Ep; [|done].
  destruct (check_must_have _ _ _ _). intros [= <-]. simpl. split; [by apply prop_assign_NoDup|].
  apply Forall_forall. intros kv [->|Hin]%elem_of_prop_assign; [by eapply parse_file_clean|].
  by apply (proj1 (Forall_forall _ _) Hall).
Qed.

(** C19 (type): the registry is well formed.  Whenever the loading phase
    ends normally, the node names are distinct and every node is a typed,
    clean attribute object: flags hold [true], every other attribute a
    non-empty array of trimmed strings without line terminators, under a
    trimmed key without [=] that is not an inherited name. *)
Theorem load_nodes_clean dir st :
  load_nodes dir = Continue st ->
  NoDup (ld_nodes st).*1 /\ Forall (fun p => obj_clean p.2) (ld_nodes st).
Proof. by eapply load_nodes_wf. Qed.

(** The state after loading [sample_dir]. *)
Definition sample_loaded : load_state :=
  Eval vm_compute in match load_nodes sample_dir with Continue s | Abort s => s end.

Lemma load_nodes_clean_witness :
  load_nodes sample_dir = Continue sample_loaded /\
  NoDup (ld_nodes sample_loaded).*1 /\ Forall (fun p => obj_clean p.2) (ld_nodes sample_loaded).
Proof. split; [vm_compute; reflexivity|]. apply (load_nodes_clean sample_dir). vm_compute. reflexivity. Defined.

(** ** The Interface block as a list of lines *)

Definition placeholder_line : string := "PrivateKey = >>>REPLACE WITH PRIVATE KEY<<<".

(** The lines [iface_from] emits for one attribute. *)
Definition attr_lines (kv : string * jsval) : list string :=
  if bool_decide (kv.1 ∈ exclude_interface) then []
  else map (fun d => kv.1 +:+ " = " +:+ d) (values_of (Some kv.2)).

Definition iface_lines (o : nodeobj) : list string :=
  "[Interface]" :: (if prop_has o "PrivateKey" then [] else [placeholder_line]) ++
  List.concat (map attr_lines (entries o)).

(** Lines, each ended by LF. *)
Definition lines_text (ls : list string) : string := str_concat (map (fun l => l +:+ nl) ls).

(** What the Interface block says, key by key: nothing for the excluded
    keys, the placeholder for a missing private key, the node's own values
    otherwise. *)
Definition iface_attr (o : nodeobj) (k : string) : option jsval :=
  if bool_decide (k ∈ exclude_interface) then None
  else if bool_decide (k = "PrivateKey") && negb (prop_has o "PrivateKey")
  then Some (VList [">>>REPLACE WITH PRIVATE KEY<<<"])
  else prop_get o k.

Lemma flag_key_excluded k : is_flag_key k = true -> k ∈ exclude_interface.
Proof.
  unfold is_flag_key, exclude_interface.
  intros [?%bool_decide_eq_true|?%bool_decide_eq_true]%orb_true_iff; subst; set_solver.
Qed.

Lemma lines_text_app l1 l2 : lines_text (l1 ++ l2) = lines_text l1 +:+ lines_text l2.
Proof. unfold lines_text. by rewrite map_app, str_concat_app. Qed.

Lemma lines_text_concat ls : lines_text ls = String.concat nl (ls ++ [""]).
Proof.
  induction ls as [|l ls IH]; [done|]. unfold lines_text in *. simpl.
  rewrite IH, append_assoc. by destruct ls.
Qed.

Lemma iface_values_text key acc vs :
  iface_values key acc vs = acc +:+ lines_text (map (fun d => key +:+ " = " +:+ d) vs).
Proof.
  revert acc. induction vs as [|d vs IH]; intros acc; simpl; [by rewrite append_empty_r|].
  rewrite IH. unfold lines_text. simpl. by autorewrite with fmwgcg_rw.
Qed.

Lemma iface_from_text acc l :
  Forall (fun kv => kv.1 ∉ exclude_interface -> kv.2 <> VTrue) l ->
  iface_from acc l = Ret (acc +:+ lines_text (List.concat (map attr_lines l))).
Proof.
  revert acc. induction l as [|[k v] l IH]; intros acc Hl; simpl; [by rewrite append_empty_r|].
  inversion Hl as [|? ? Hkv Hl']; subst. unfold attr_lines at 1. simpl.
  case_bool_decide; [by rewrite IH|].
  destruct v as [vs|]; [|by destruct Hkv].
  rewrite IH, iface_values_text, lines_text_app by done. by autorewrite with fmwgcg_rw.
Qed.

(** The Interface block of a typed node is the text of [iface_lines]. *)
Lemma render_iface_text o :
  obj_typed o -> render_iface o = Ret (lines_text (iface_lines o)).
Proof.
  intros Hty. unfold render_iface. rewrite iface_from_text.
  - unfold iface_lines, iface_head. rewrite (app_comm_cons _ _ "[Interface]").
    rewrite lines_text_app. f_equal. unfold lines_text.
    destruct (prop_has o "PrivateKey"); simpl; by autorewrite with fmwgcg_rw.
  - apply Forall_forall. intros [k v] Hin Hk Hv. simpl in Hk, Hv. subst v.
    apply (proj1 (elem_of_entries _ _)) in Hin.
    apply (obj_typed_elem o) in Hin; [|done]. destruct (is_flag_key k) eqn:Hf; [|naive_solver].
    by apply Hk, flag_key_excluded.
Qed.

(** C14 (functional): the layout of the Interface block (§4.4).  For a
    typed node the block is the header, the placeholder private key when
    the node has none, then one [key = value] line per value of every
    attribute outside [exclude_interface], attributes in [Object.entries]
    order and values in stored order, each line ended by LF. *)
Theorem render_iface_layout o :
  obj_typed o -> render_iface o = Ret (lines_text (iface_lines o)).
Proof. by eapply render_iface_text. Qed.

Lemma render_iface_layout_witness :
  obj_typed (sample_obj "A") /\
  render_iface (sample_obj "A") = Ret (lines_text (iface_lines (sample_obj "A"))).
Proof. split; [by_decide|]. apply render_iface_layout. by_decide. Defined.

(** ** Splitting the block into lines again *)

Lemma map_but_last_snoc {A} (f : A -> A) l x : map_but_last f (l ++ [x]) = map f l ++ [x].
Proof. induction l as [|y [|z l] IH]; [done|done|]. simpl in *. by rewrite IH. Qed.

Lemma drop_cr_app s t : t <> EmptyString -> drop_cr (s +:+ t) = s +:+ drop_cr t.
Proof.
  intros Ht. induction s as [|d s IH]; [done|]. rewrite !append_cons. simpl.
  rewrite IH. by destruct s, t.
Qed.

Lemma drop_cr_id t : includes_char "013" t = false -> drop_cr t = t.
Proof.
  induction t as [|d [|e t] IH]; simpl; [done| |].
  - intros H. rewrite orb_false_r in H. by rewrite H.
  - intros [_ H]%orb_false_iff. f_equal. exact (IH H).
Qed.

(** Lines without LF that do not end in CR are split back as written; the
    LF that ends the last line leaves an empty last piece. *)
Lemma split_lines_text ls :
  Forall (fun l => includes_char "010" l = false /\ drop_cr l = l) ls ->
  split_lines (lines_text ls) = ls ++ [""].
Proof.
  intros Hls. unfold split_lines. rewrite lines_text_concat, split_char_concat.
  - rewrite map_but_last_snoc. f_equal. induction Hls as [|l ls [_ Hl] _ IH]; [done|]. simpl. by rewrite Hl, IH.
  - by destruct ls.
  - apply Forall_app. split; [|by repeat constructor].
    eapply Forall_impl; [exact Hls|]. by intros l [H _].
Qed.

(** A rendered attribute line [k = d]. *)
Lemma attr_line_entry k d :
  key_clean k = true -> value_clean d = true ->
  line_entry (k +:+ " = " +:+ d) = Some (k, String " " d).
Proof.
  unfold key_clean, value_clean. intros Hk Hd. bool_hyps.
  unfold line_entry, split_key_rest.
  replace (k +:+ " = " +:+ d) with ((k +:+ " ") +:+ String "=" (String " " d))
    by (rewrite append_assoc; reflexivity).
  rewrite break_char_app by (rewrite includes_char_app; simpl; by rewrite orb_false_r).
  rewrite take_line_id, trim_pad_r by (simpl; by try apply orb_false_iff). done.
Qed.

(** ** The rests of the rendered lines *)

Lemma attr_line_ok k d :
  key_clean k = true -> value_clean d = true ->
  includes_char "010" (k +:+ " = " +:+ d) = false /\ drop_cr (k +:+ " = " +:+ d) = k +:+ " = " +:+ d.
Proof.
  unfold key_clean, value_clean. intros Hk Hd. bool_hyps.
  rewrite !includes_char_app. split.
  - simpl. repeat (apply orb_false_iff; split); done.
  - rewrite drop_cr_app by done. f_equal. apply drop_cr_id. simpl. done.
Qed.

Lemma rests_of_attr_values k k' vs :
  key_clean k' = true -> Forall (fun d => value_clean d = true) vs ->
  rests_of k (map (fun d => k' +:+ " = " +:+ d) vs) =
    if bool_decide (k' = k) then map (String " ") vs else [].
Proof.
  intros Hk Hvs. induction Hvs as [|d vs Hd _ IH]; [by case_bool_decide|].
  cbn [map]. unfold rests_of in *. simpl. unfold rest_for at 1.
  rewrite attr_line_entry by done. change (list_omap _ _ ?f ?l) with (omap f l).
  rewrite IH. by case_bool_decide.
Qed.

Lemma rests_of_attr_lines k l :
  NoDup l.*1 -> Forall entry_clean l ->
  rests_of k (List.concat (map attr_lines l)) =
    if bool_decide (k ∈ exclude_interface) then [] else map (String " ") (values_of (prop_get l k)).
Proof.
  induction l as [|[k' v] l IH]; intros Hnd Hl; [by case_bool_decide|].
  inversion Hnd as [|? ? Hk' Hnd']. inversion Hl as [|? ? [Hkc Hvc] Hl']. subst.
  cbn [map List.concat]. rewrite rests_of_app, IH by done. unfold attr_lines. simpl in *.
  destruct (decide (k' ∈ exclude_interface)) as [Hx|Hx].
  - rewrite (bool_decide_true (k' ∈ _)) by done. change (rests_of k []) with (@nil string). simpl.
    case_bool_decide as Hk; [done|]. by rewrite bool_decide_false by (intros ->; done).
  - rewrite (bool_decide_false (k' ∈ _)), rests_of_attr_values by done.
    destruct (decide (k' = k)) as [<-|Hne].
    + rewrite (bool_decide_true (k' = k')), (bool_decide_false (k' ∈ _)), (proj2 (prop_get_None l k'))
        by done.
      simpl. by rewrite app_nil_r.
    + by rewrite (bool_decide_false (k' = k)).
Qed.

Lemma placeholder_entry : line_entry placeholder_line = Some ("PrivateKey", " >>>REPLACE WITH PRIVATE KEY<<<").
Proof. reflexivity. Qed.

Lemma rests_of_iface_lines o k :
  obj_clean o ->
  rests_of k (iface_lines o ++ [""]) =
    (if bool_decide (k = "PrivateKey") && negb (prop_has o "PrivateKey")
     then [" >>>REPLACE WITH PRIVATE KEY<<<"] else []) ++
    (if bool_decide (k ∈ exclude_interface) then [] else map (String " ") (values_of (prop_get o k))).
Proof.
  intros [[Hnd _] Hcl]. unfold iface_lines.
  change (("[Interface]" :: ?l) ++ [""]) with (["[Interface]"] ++ l ++ [""]).
  rewrite <- app_assoc, !rests_of_app, (rests_of_attr_lines k (entries o)), prop_get_entries;
    [|done|by apply entries_NoDup|by rewrite (entries_Permutation o)].
  change (rests_of k ["[Interface]"]) with (@nil string). change (rests_of k [""]) with (@nil string).
  rewrite app_nil_r. simpl. f_equal.
  destruct (prop_has o "PrivateKey"); simpl; [by rewrite andb_false_r|rewrite andb_true_r].
  unfold rests_of. simpl. unfold rest_for. rewrite placeholder_entry. by case_bool_decide; case_bool_decide; subst.
Qed.

(** Every rendered line is one line, does not end in CR and uses no
    inherited key. *)
Definition line_ok (l : string) : Prop :=
  includes_char "010" l = false /\ drop_cr l = l /\ proto_free_line l = true.

Lemma iface_lines_ok o : obj_clean o -> Forall line_ok (iface_lines o).
Proof.
  intros [_ Hcl]. unfold iface_lines. constructor; [by repeat split|].
  apply Forall_app. split; [destruct (prop_has o "PrivateKey"); repeat constructor|].
  apply Forall_concat, Forall_fmap, Forall_forall. intros [k v] Hin.
  apply (proj1 (elem_of_entries _ _)), (proj1 (Forall_forall _ _) Hcl) in Hin as [Hk Hv].
  unfold attr_lines. simpl in *. case_bool_decide; [constructor|].
  apply Forall_fmap, Forall_forall. intros d Hd%(proj1 (Forall_forall _ _) Hv). simpl.
  destruct (attr_line_ok k d Hk Hd) as [H1 H2]. repeat split; [done|done|].
  unfold proto_free_line. rewrite attr_line_entry by done.
  unfold key_clean in Hk. by bool_hyps; apply bool_decide_eq_true_2.
Qed.

Lemma map_trim_pad vs : Forall (fun d => value_clean d = true) vs -> map trim (map (String " ") vs) = vs.
Proof.
  induction 1 as [|d vs Hd _ IH]; [done|]. simpl. rewrite IH. f_equal.
  apply trim_pad_l. unfold value_clean in Hd. by bool_hyps.
Qed.

Lemma attr_spec_iface o k : obj_clean o -> attr_spec k (iface_lines o ++ [""]) = iface_attr o k.
Proof.
  intros Hc. pose proof Hc as [Hty Hcl]. unfold attr_spec, iface_attr. rewrite rests_of_iface_lines by done.
  assert (Hpk : "PrivateKey" ∉ exclude_interface) by by_decide.
  destruct (decide (k ∈ exclude_interface)) as [Hx|Hx].
  { rewrite (bool_decide_true (k ∈ _)), (bool_decide_false (k = "PrivateKey")) by (try intros ->; done).
    simpl. by case_bool_decide; [|destruct (is_flag_key k)]. }
  rewrite (bool_decide_false (k ∈ _)) by done.
  rewrite (bool_decide_false (k = "ConnectTo")) by (intros ->; apply Hx; by_decide).
  destruct (is_flag_key k) eqn:Hf; [by apply flag_key_excluded in Hf|].
  destruct (bool_decide (k = "PrivateKey") && negb (prop_has o "PrivateKey")) eqn:Hp.
  { bool_hyps. subst k. unfold prop_has in *. by destruct (prop_get o "PrivateKey"). }
  simpl. destruct (prop_get o k) as [v|] eqn:E; [|done].
  pose proof (typed_prop_get _ _ _ Hty E) as Hv. rewrite Hf in Hv. destruct Hv as (x & l & ->).
  apply (proj1 (Forall_prop_get _ _ (proj1 Hty)) Hcl) in E as [_ Hvs].
  rewrite <- (map_trim_pad (x :: l)) at 2 by done. done.
Qed.

(** ** The round trip *)

Lemma iface_reread_gen o file log err :
  obj_clean o ->
  exists iface st,
    render_iface o = Ret iface /\ parse_file file iface log err = Continue st /\
    forall k, prop_get (ps_obj st) k = iface_attr o k.
Proof.
  intros Hc. pose proof (iface_lines_ok o Hc) as Hok.
  assert (Hpf : proto_free (iface_lines o ++ [""])).
  { unfold proto_free. rewrite forallb_app, andb_true_r. apply forallb_forall.
    intros l Hl%list_elem_of_In. by apply (proj1 (Forall_forall _ _) Hok). }
  destruct (parse_lines_correct file _ log err Hpf) as (st & Hrun & Hst & _).
  exists (lines_text (iface_lines o)), st. split; [by apply render_iface_text, Hc|]. split.
  - unfold parse_file. rewrite split_lines_text; [done|].
    eapply Forall_impl; [exact Hok|]. by intros l (? & ? & _).
  - intros k. by rewrite Hst, attr_spec_iface.
Qed.

(** C12 (roundtrip): the Interface block reads back as its attributes.  For
    every clean attribute object [o], the renderer's Interface block
    parses, as a definition file, without error into an object whose
    attributes are exactly those of [o] outside [exclude_interface], plus
    the placeholder private key when [o] has none. *)
Theorem iface_reread o file log err :
  obj_clean o ->
  exists iface st,
    render_iface o = Ret iface /\ parse_file file iface log err = Continue st /\
    forall k, prop_get (ps_obj st) k = iface_attr o k.
Proof. by eapply iface_reread_gen. Qed.

Lemma iface_reread_witness :
  obj_clean (sample_obj "B") /\
  exists iface st,
    render_iface (sample_obj "B") = Ret iface /\ parse_file "B.wg" iface [] false = Continue st /\
    forall k, prop_get (ps_obj st) k = iface_attr (sample_obj "B") k.
Proof. split; [by_decide|]. apply iface_reread. by_decide. Defined.

(** C21 (roundtrip): for the registry, the same: after a loading phase that
    ends normally, the Interface block written for any node reads back
    as that node's interface attributes. *)
Theorem registry_iface_reread dir st A a :
  load_nodes dir = Continue st -> (A, a) ∈ ld_nodes st ->
  exists iface st',
    render_iface a = Ret iface /\ parse_file (A +:+ ".wg") iface [] false = Continue st' /\
    forall k, prop_get (ps_obj st') k = iface_attr a k.
Proof.
  intros Hl Hin. apply iface_reread_gen.
  destruct (load_nodes_wf dir st Hl) as [_ Hall]. by apply (proj1 (Forall_forall _ _) Hall (A, a)).
Qed.

Lemma registry_iface_reread_witness :
  load_nodes sample_dir = Continue sample_loaded /\
  ("a", default [] (prop_get (ld_nodes sample_loaded) "a")) ∈ ld_nodes sample_loaded /\
  exists iface st',
    render_iface (default [] (prop_get (ld_nodes sample_loaded) "a")) = Ret iface /\
    parse_file ("a" +:+ ".wg") iface [] false = Continue st' /\
    forall k, prop_get (ps_obj st') k = iface_attr (default [] (prop_get (ld_nodes sample_loaded) "a")) k.
Proof.
  split; [vm_compute; reflexivity|]. split; [by_decide|].
  apply (registry_iface_reread sample_dir sample_loaded); [vm_compute; reflexivity|by_decide].
Defined.

Lemma parse_line_clean_witness :
  includes_char "010" "Address = 10.0.0.1/32" = false /\
  obj_clean (ps_obj (ps_init [] false)) /\
  parse_line "n.wg" (ps_init [] false) "Address = 10.0.0.1/32" =
    Continue {| ps_obj := [("Address", VList ["10.0.0.1/32"])]; ps_log := []; ps_err := false |} /\
  obj_clean [("Address", VList ["10.0.0.1/32"])].
Proof.
  split; [reflexivity|]. split; [by_decide|]. split; [vm_compute; reflexivity|].
  apply (parse_line_clean "n.wg" (ps_init [] false) "Address = 10.0.0.1/32"
           {| ps_obj := [("Address", VList ["10.0.0.1/32"])]; ps_log := []; ps_err := false |});
    [reflexivity|by_decide|vm_compute; reflexivity].
Defined.
