(* ===== verification/Output.v ===== *)
(** * What the rendering phase writes

    Facts about the writes of the rendering reference ([render_reference],
    which [render_all] performs): every node's files are among them, with
    their content, and there are at most [n * max 1 (n - 1)] of them for
    [n] nodes: one file per node, or one per peer with [SplitFiles], and a
    node is never its own peer. *)

From S2P Require Import Prelude JsObject Parser Topology Render.

(** The writes of the reference, node by node. *)
Lemma render_reference_outputs nodes ws :
  render_reference nodes = Ret ws ->
  exists outs, ws = List.concat outs /\
    Forall2 (fun p out => exists iface secs,
               render_iface p.2 = Ret iface /\ node_sections nodes p.1 p.2 = Ret secs /\
               out = node_output p.1 p.2 iface secs)
            (entries nodes) outs.
Proof.
  unfold render_reference. intros H. apply throws_bind_Ret in H as (outs & Hm & [= <-]).
  exists outs. split; [done|]. apply mapM_throws_Forall2 in Hm.
  eapply Forall2_impl; [exact Hm|]. intros [A a] out Hout. simpl.
  apply throws_bind_Ret in Hout as (iface & Hi & Hout).
  apply throws_bind_Ret in Hout as (secs & Hs & [= <-]). eauto.
Qed.

Lemma peers_from_length A a l peers : peers_from A a l = Ret peers -> List.length peers <= List.length l.
Proof.
  revert peers. induction l as [|[B b] l IH]; intros peers; simpl; [intros [= Hp]; subst; simpl; lia|].
  intros H. apply throws_bind_Ret in H as (skip & _ & H).
  apply throws_bind_Ret in H as (rest & Hr & [= Hp]). subst. apply IH in Hr.
  destruct skip; simpl; lia.
Qed.

Lemma sections_for_length a peers secs : sections_for a peers = Ret secs -> List.length secs = List.length peers.
Proof.
  revert secs. induction peers as [|[B b] peers IH]; intros secs; simpl; [by intros [= <-]|].
  intros H. apply throws_bind_Ret in H as (s & _ & H).
  apply throws_bind_Ret in H as (rest & Hr & [= <-]). simpl. by rewrite (IH rest).
Qed.

(** A node has at most one section per node of the registry. *)
Lemma node_sections_length nodes A a secs :
  node_sections nodes A a = Ret secs -> List.length secs <= List.length nodes.
Proof.
  unfold node_sections, peers_of. intros H. apply throws_bind_Ret in H as (peers & Hp & Hs).
  rewrite (sections_for_length _ _ _ Hs). apply peers_from_length in Hp.
  by rewrite (Permutation_length (entries_Permutation nodes)) in Hp.
Qed.

Lemma node_output_length A a iface secs :
  List.length (node_output A a iface secs) = if prop_has a "SplitFiles" then List.length secs else 1.
Proof. unfold node_output, split_outputs. destruct (prop_has a "SplitFiles"); [apply length_imap|done]. Qed.

Lemma length_concat_le {A B} n (l : list A) (outs : list (list B)) :
  Forall2 (fun x out => List.length out <= n) l outs -> List.length (List.concat outs) <= List.length l * n.
Proof. induction 1; simpl; [lia|]. rewrite length_app. lia. Qed.

Lemma sublist_length_lt {X} (l1 l2 : list X) x :
  sublist l1 l2 -> x ∈ l2 -> x ∉ l1 -> List.length l1 < List.length l2.
Proof.
  induction 1 as [|y l1 l2 Hs IH|y l1 l2 Hs IH]; intros Hx Hn.
  - by apply not_elem_of_nil in Hx.
  - apply elem_of_cons in Hx as [->|Hx]; [set_solver|]. simpl. apply IH in Hx; [lia|set_solver].
  - apply sublist_length in Hs. simpl. lia.
Qed.

Section SelfExcluded.
(** The [continue] test skips the node itself: [peerName === nodeName]
    comes first in the condition of line 75. *)
Context (skip_self : forall A a b, skip_peer A a A b = Ret true).

(** The peers the inner loop keeps are entries of the list, in order,
    and never the node itself. *)
Lemma peers_from_sublist A a l peers :
  peers_from A a l = Ret peers -> sublist peers l /\ Forall (fun p => p.1 <> A) peers.
Proof.
  revert peers. induction l as [|[B b] l IH]; intros peers; simpl.
  { intros [= <-]. split; constructor. }
  intros H. apply throws_bind_Ret in H as (skip & Hs & H).
  apply throws_bind_Ret in H as (rest & Hr & [= <-]). destruct (IH rest Hr) as [Hsub Hne].
  destruct skip; [split; [by apply sublist_cons|done]|].
  split; [by apply sublist_skip|]. constructor; [|done]. simpl. intros ->.
  by rewrite skip_self in Hs.
Qed.

(** A node has fewer sections than the registry has nodes. *)
Lemma node_sections_lt nodes A a secs :
  (A, a) ∈ nodes -> node_sections nodes A a = Ret secs -> List.length secs < List.length nodes.
Proof.
  unfold node_sections, peers_of. intros Hin H. apply throws_bind_Ret in H as (peers & Hp & Hs).
  rewrite (sections_for_length _ _ _ Hs), <- (Permutation_length (entries_Permutation nodes)).
  destruct (peers_from_sublist _ _ _ _ Hp) as [Hsub Hne].
  apply (sublist_length_lt _ _ (A, a) Hsub); [by apply elem_of_entries|].
  intros Hp'. by apply (proj1 (Forall_forall _ _) Hne) in Hp'.
Qed.

(** The writes of the reference: one file per node, or one per peer with
    [SplitFiles], and a node never peers with itself. *)
Lemma render_reference_writes_le nodes ws :
  render_reference nodes = Ret ws ->
  List.length ws <= List.length nodes * Nat.max 1 (List.length nodes - 1).
Proof.
  intros (outs & -> & Houts)%render_reference_outputs.
  rewrite <- (Permutation_length (entries_Permutation nodes)) at 1. apply length_concat_le.
  apply Forall2_same_length_lookup. split; [by apply Forall2_length in Houts|].
  intros i [A a] out Hi Ho. destruct (Forall2_lookup_lr _ _ _ _ _ _ Houts Hi Ho) as (iface & secs & _ & Hs & ->).
  apply node_sections_lt in Hs; [|by eapply elem_of_entries, list_elem_of_lookup_2].
  rewrite node_output_length. simpl in *. destruct (prop_has a "SplitFiles"); lia.
Qed.

End SelfExcluded.

(** Every node's files are among the writes, with their content. *)
Lemma render_reference_node nodes ws A a :
  render_reference nodes = Ret ws -> (A, a) ∈ nodes ->
  exists iface secs,
    render_iface a = Ret iface /\ node_sections nodes A a = Ret secs /\
    Forall (fun w => w ∈ ws) (node_output A a iface secs).
Proof.
  intros (outs & -> & Houts)%render_reference_outputs Hin.
  apply (proj2 (elem_of_entries _ _)), list_elem_of_lookup in Hin as [i Hi].
  destruct (Forall2_lookup_l _ _ _ _ _ Houts Hi) as (out & Ho & iface & secs & Hif & Hs & ->).
  exists iface, secs. do 2 (split; [done|]). apply Forall_forall. intros w Hw.
  apply list_elem_of_In, in_concat. exists (node_output A a iface secs).
  split; apply list_elem_of_In; [by eapply list_elem_of_lookup_2|done].
Qed.

Lemma elem_of_concat_lookup {X} (outs : list (list X)) j o w :
  outs !! j = Some o -> w ∈ o -> w ∈ List.concat outs.
Proof.
  intros Hj Hw. apply list_elem_of_In, in_concat. exists o.
  split; apply list_elem_of_In; [by eapply list_elem_of_lookup_2|done].
Qed.

(** A name among the writes of two different iterations is written twice. *)
Lemma concat_names_not_NoDup {X Y} (outs : list (list (X * Y))) i j oi oj x :
  i <> j -> outs !! i = Some oi -> outs !! j = Some oj -> x ∈ oi.*1 -> x ∈ oj.*1 ->
  ~ NoDup (List.concat outs).*1.
Proof.
  revert i j. induction outs as [|o outs IH]; intros [|i] [|j] Hij Hi Hj Hxi Hxj; simplify_eq/=;
    rewrite fmap_app, NoDup_app; intros (Hl & Hdisj & Hr).
  - apply (Hdisj x Hxi). apply list_elem_of_fmap in Hxj as (w & -> & Hw).
    apply (list_elem_of_fmap_2 fst). by eapply elem_of_concat_lookup.
  - apply (Hdisj x Hxj). apply list_elem_of_fmap in Hxi as (w & -> & Hw).
    apply (list_elem_of_fmap_2 fst). by eapply elem_of_concat_lookup.
  - apply (IH i j); auto; congruence.
Qed.
