(* ===== verification/Program.v ===== *)
(** * Program: the whole script genConf.js

    [main] runs the loading phase (Registry.v); an uncaught exception ends
    the process with the console output written so far; a set error flag
    ends it with [process.exit(-1)] (line 59) before anything is written;
    otherwise the rendering phase (Render.v) performs its writes.
    [output_files] is the content of [conf_output] afterwards: a later
    write to the same name replaces an earlier one.  Beyond the phases,
    this file bounds the number of files a valid run writes and shows
    when a split file and another node's file share a name. *)

From S2P Require Import Prelude StringLaws JsObject Parser Registry Topology Render Reread Output.

Inductive outcome : Type :=
  | Exited (code : Z) (log : list string)
  | Crashed (log : list string) (writes : list write)
  | Completed (log : list string) (writes : list write).

Definition main (dir : list (string * string)) : outcome :=
  match load_nodes dir with
  | Abort st => Crashed (ld_log st) []
  | Continue st =>
      if ld_err st then Exited (-1) (ld_log st)
      else match render_all (ld_nodes st) with
           | Continue ws => Completed (ld_log st) ws
           | Abort ws => Crashed (ld_log st) ws
           end
  end.

Definition outcome_writes (o : outcome) : list write :=
  match o with
  | Exited _ _ => []
  | Crashed _ ws | Completed _ ws => ws
  end.

Definition outcome_log (o : outcome) : list string :=
  match o with
  | Exited _ log | Crashed log _ | Completed log _ => log
  end.

(** The files of [conf_output] written by the run. *)
Definition output_files (ws : list write) : gmap string string :=
  foldl (fun m '(f, c) => <[f := c]> m) ∅ ws.

#[export] Instance dir_proto_free_dec dir : Decision (dir_proto_free dir).
Proof. unfold dir_proto_free. apply _. Defined.

(** ** Validation *)

(** C1 (safety): any diagnostic suppresses all output.  When some
    definition file has an unknown key or lacks [Address] or [PublicKey],
    the run writes no file at all: it exits with status -1, or stops on
    the [TypeError] of an inherited key before any write. *)
Theorem main_invalid_no_output dir :
  diagnostics dir <> [] -> outcome_writes (main dir) = [].
Proof.
  intros Hd. unfold main. destruct (decide (dir_proto_free dir)) as [Hpf|Hpf].
  - destruct (load_nodes_correct dir Hpf) as (st & -> & _ & Herr & _).
    by rewrite Herr, bool_decide_true.
  - by destruct (load_nodes_aborts dir Hpf) as (st & ->).
Qed.

(** C3 (error): every diagnostic is reported.  Unless a file uses an
    inherited key, an invalid run exits with status -1 after printing
    every diagnostic of every file, file by file, each unknown key once
    per line in line order and then each missing attribute. *)
Theorem main_reports_all dir :
  dir_proto_free dir -> diagnostics dir <> [] ->
  main dir = Exited (-1) (diagnostics dir).
Proof.
  intros Hpf Hd. unfold main.
  destruct (load_nodes_correct dir Hpf) as (st & -> & Hlog & Herr & _).
  by rewrite Herr, bool_decide_true, Hlog.
Qed.

(** C25 (error): an inherited key ends the run early.  When a definition
    file uses a key such as ["constructor"] or ["toString"], the program
    throws at the first such line of the first such file: it has printed
    every diagnostic of the files before it, the unknown-key warnings of
    that file up to the line, and the warning for the line itself; the
    diagnostics of the following lines and files are never printed and
    nothing is written. *)
Theorem main_inherited_key_crashes dir :
  ~ dir_proto_free dir ->
  exists pre file content post lpre line lpost k r,
    dir = pre ++ (file, content) :: post /\ ends_with ".wg" file = true /\ dir_proto_free pre /\
    split_lines content = lpre ++ line :: lpost /\ proto_free lpre /\
    line_entry line = Some (k, r) /\ k ∈ object_prototype_keys /\
    main dir = Crashed (diagnostics pre ++ unknown_warnings file lpre ++
                        [k +:+ " in " +:+ file +:+ " is unfamiliar"]) [].
Proof.
  intros (pre & file & content & post & lpre & line & lpost & k & r & st & Hdir & Hwg & Hpre &
          Hsplit & Hlpre & El & Hk & Hrun & Hlog)%load_nodes_abort_at.
  exists pre, file, content, post, lpre, line, lpost, k, r. do 7 (split; [done|]).
  unfold main. by rewrite Hrun, Hlog.
Qed.

(** ** Valid runs *)

Lemma registry_nodes_ok dir nodes :
  diagnostics dir = [] -> registry_spec nodes dir -> Forall (fun p => node_ok p.2) nodes.
Proof.
  intros Hnil Hreg. apply Forall_forall. intros [n o] Hin.
  apply list_elem_of_lookup in Hin as [i Hi].
  destruct (Forall2_lookup_l _ _ _ _ _ Hreg Hi) as ([n' lines] & Hj & [_ Href]).
  apply list_elem_of_lookup_2, registry_of_elem in Hj as (e & He & ->).
  destruct (diagnostics_nil dir e Hnil He) as [_ Hm].
  destruct (missing_warnings_nil _ _ Hm) as [Ha Hp]. simpl in *.
  split; [by apply (obj_refines_typed _ _ Href)|].
  unfold prop_has. rewrite !(proj2 Href).
  destruct Ha as [? ->], Hp as [? ->]. done.
Qed.

(** A run without diagnostics loads the registry of the specification
    silently, and every node of it can be rendered. *)
Lemma valid_run_loads dir :
  diagnostics dir = [] ->
  exists nodes ws,
    load_nodes dir = Continue {| ld_nodes := nodes; ld_log := []; ld_err := false |} /\
    registry_spec nodes dir /\ render_reference nodes = Ret ws.
Proof.
  intros Hnil.
  destruct (load_nodes_correct dir) as ([nodes log err] & Hrun & Hlog & Herr & Hreg);
    [by apply diagnostics_nil_proto_free|].
  simpl in *. rewrite Hnil in Hlog, Herr. rewrite bool_decide_false in Herr by (intros H; by apply H). subst.
  destruct (render_reference_total nodes) as [ws Hws]; [by apply (registry_nodes_ok dir)|].
  by exists nodes, ws.
Qed.

(** C2 (refinement): a valid run completes.  Without any diagnostic the
    program prints nothing, loads the registry of the specification and
    performs exactly the writes of the rendering reference: for each node
    in [Object.entries] order its interface and the sections of the peers
    that the rule of §4.3 selects, laid out by [node_output]. *)
Theorem main_valid_completes dir :
  diagnostics dir = [] ->
  exists nodes ws,
    load_nodes dir = Continue {| ld_nodes := nodes; ld_log := []; ld_err := false |} /\
    registry_spec nodes dir /\
    render_reference nodes = Ret ws /\
    main dir = Completed [] ws.
Proof.
  intros Hnil. destruct (valid_run_loads dir Hnil) as (nodes & ws & Hrun & Hreg & Hws).
  exists nodes, ws. do 3 (split; [done|]).
  unfold main. rewrite Hrun. simpl. by rewrite (render_all_reference nodes ws Hws).
Qed.

(** C13 (liveness): every node is configured.  In a run without
    diagnostics, each node of the registry gets all its files: the one
    file [node.conf] with its interface and the sections of all its
    peers, or with [SplitFiles] one file [node:peer.conf] per peer; each
    is among the writes with that content. *)
Theorem main_configures_every_node dir :
  diagnostics dir = [] ->
  exists nodes ws,
    load_nodes dir = Continue {| ld_nodes := nodes; ld_log := []; ld_err := false |} /\
    main dir = Completed [] ws /\
    forall A a, (A, a) ∈ nodes ->
      exists iface secs,
        render_iface a = Ret iface /\ node_sections nodes A a = Ret secs /\
        Forall (fun w => w ∈ ws) (node_output A a iface secs).
Proof.
  intros Hnil. destruct (valid_run_loads dir Hnil) as (nodes & ws & Hrun & _ & Hws).
  exists nodes, ws. split; [done|]. split.
  - unfold main. rewrite Hrun. simpl. by rewrite (render_all_reference nodes ws Hws).
  - intros A a. by apply render_reference_node.
Qed.

(** ** How many files a run writes, and which it loses *)

(** A valid run completes with the writes of the reference. *)
Lemma valid_run_main dir nodes ws :
  load_nodes dir = Continue {| ld_nodes := nodes; ld_log := []; ld_err := false |} ->
  render_reference nodes = Ret ws -> main dir = Completed [] ws.
Proof. intros Hrun Hws. unfold main. rewrite Hrun. simpl. by rewrite (render_all_reference nodes ws Hws). Qed.

(** C27 (bounds): a run writes at most [n * max 1 (n - 1)] files.  In a
    run without diagnostics that loads [n] nodes, each node writes its
    [node.conf], or with [SplitFiles] one file per peer, and a node is
    never its own peer, so at most [n - 1] files. *)
Theorem main_writes_bound dir :
  diagnostics dir = [] ->
  exists nodes ws,
    load_nodes dir = Continue {| ld_nodes := nodes; ld_log := []; ld_err := false |} /\
    main dir = Completed [] ws /\
    List.length ws <= List.length nodes * Nat.max 1 (List.length nodes - 1).
Proof.
  intros Hnil. destruct (valid_run_loads dir Hnil) as (nodes & ws & Hrun & _ & Hws).
  exists nodes, ws. split; [done|]. split; [by eapply valid_run_main|].
  apply render_reference_writes_le; [|done].
  intros A a b. unfold skip_peer. by rewrite bool_decide_true.
Qed.

Lemma output_files_dom ws : dom (output_files ws) = list_to_set ws.*1.
Proof.
  unfold output_files.
  assert (H : forall m : gmap string string,
    dom (foldl (fun m '(f, c) => <[f := c]> m) m ws) = dom m ∪ list_to_set ws.*1).
  { induction ws as [|[f c] ws IH]; intros m; simpl; [set_solver|]. rewrite IH, dom_insert_L. set_solver. }
  rewrite H, dom_empty_L. set_solver.
Qed.

Lemma size_list_to_set_le (l : list string) : size (list_to_set l : gset string) <= List.length l.
Proof.
  induction l as [|x l IH]; cbn [list_to_set List.length]; [rewrite size_empty; lia|].
  destruct (decide (x ∈ l)).
  - rewrite subseteq_union_1_L by set_solver. lia.
  - rewrite size_union, size_singleton by set_solver. lia.
Qed.

(** Two writes to one name leave fewer files than writes. *)
Lemma output_files_size_lt ws : ~ NoDup ws.*1 -> size (output_files ws) < List.length ws.
Proof.
  rewrite <- size_dom, output_files_dom, <- (length_fmap fst ws).
  induction ws.*1 as [|x l IH]; intros Hnd; [by destruct Hnd; constructor|]. cbn [list_to_set List.length].
  destruct (decide (x ∈ l)).
  - rewrite subseteq_union_1_L by set_solver. pose proof (size_list_to_set_le l). lia.
  - rewrite size_union, size_singleton by set_solver. rewrite NoDup_cons in Hnd.
    assert (~ NoDup l) by tauto. specialize (IH ltac:(done)). lia.
Qed.

Lemma split_name_ne A B : A <> A +:+ ":" +:+ B.
Proof. intros H. apply (f_equal String.length) in H. rewrite !string_length_app in H. simpl in H. lia. Qed.

(** The names a node's files are written under. *)
Lemma node_output_names nodes A a iface secs B b :
  Forall (fun p => obj_typed p.2) nodes -> obj_typed a -> node_sections nodes A a = Ret secs ->
  (B, b) ∈ nodes -> peer_rule A a B b = true ->
  (fst <$> node_output A a iface secs) =
    (if prop_has a "SplitFiles" then map (split_file_name A) secs.*1 else [node_file_name A]) /\
  B ∈ secs.*1.
Proof.
  intros Hall Ha Hs Hb Hr. unfold node_sections in Hs.
  rewrite peers_of_filter in Hs by done. simpl in Hs. apply sections_for_names in Hs.
  split.
  - unfold node_output. destruct (prop_has a "SplitFiles"); [|done].
    rewrite (split_outputs_names A iface ""), <- list_fmap_compose. done.
  - rewrite Hs. apply (list_elem_of_fmap_2 fst _ (B, b)), list_elem_of_filter.
    split; [done|]. by apply elem_of_entries.
Qed.

(** C28 (safety): split files can overwrite another node's file.  In a
    run without diagnostics, when a split node [A] peers with [B] and a
    node without [SplitFiles] is named [A:B], both write [A:B.conf]
    (lines 88 and 91): the directory ends with fewer files than there
    were writes, so one configuration is lost. *)
Theorem main_output_collision dir :
  diagnostics dir = [] ->
  exists nodes ws,
    load_nodes dir = Continue {| ld_nodes := nodes; ld_log := []; ld_err := false |} /\
    main dir = Completed [] ws /\
    forall A a B b c,
      (A, a) ∈ nodes -> (B, b) ∈ nodes -> (A +:+ ":" +:+ B, c) ∈ nodes ->
      prop_has a "SplitFiles" = true -> prop_has c "SplitFiles" = false ->
      peer_rule A a B b = true ->
      size (output_files ws) < List.length ws.
Proof.
  intros Hnil. destruct (valid_run_loads dir Hnil) as (nodes & ws & Hrun & Hreg & Hws).
  exists nodes, ws. split; [done|]. split; [by eapply valid_run_main|].
  intros A a B b c HA HB HC Hsa Hsc Hr.
  assert (Hty : Forall (fun p => obj_typed p.2) nodes).
  { eapply Forall_impl; [by apply (registry_nodes_ok dir)|]. by intros p [? _]. }
  pose proof (proj1 (Forall_forall _ _) Hty (A, a) HA) as Ha.
  destruct (render_reference_outputs _ _ Hws) as (outs & -> & Houts).
  apply output_files_size_lt.
  apply (proj2 (elem_of_entries _ _)), list_elem_of_lookup in HA as [i Hi].
  apply (proj2 (elem_of_entries _ _)), list_elem_of_lookup in HC as [j Hj].
  destruct (Forall2_lookup_l _ _ _ _ _ Houts Hi) as (oi & Hoi & ifi & si & _ & Hsi & ->).
  destruct (Forall2_lookup_l _ _ _ _ _ Houts Hj) as (oj & Hoj & ifj & sj & _ & _ & ->).
  simpl in *. apply (concat_names_not_NoDup outs i j (node_output A a ifi si)
    (node_output (A +:+ ":" +:+ B) c ifj sj) (split_file_name A B)); [|done|done| |].
  - intros <-. rewrite Hi in Hj. injection Hj as Heq _. by apply (split_name_ne A B).
  - destruct (node_output_names nodes A a ifi si B b Hty Ha Hsi HB Hr) as [-> Hin].
    rewrite Hsa. by apply (list_elem_of_fmap_2 (split_file_name A)).
  - unfold node_output, split_file_name, node_file_name. rewrite Hsc, !append_assoc. by left.
Qed.

(** ** Sample directories *)

(** A definition file, line by line. *)
Definition text (ls : list string) : string := String.concat nl ls.

(** Scenario 1 of §8: A has an endpoint, B has none. *)
Definition scenario1 : list (string * string) :=
  [("A.wg", text ["Address = 10.0.0.1/32"; "PublicKey = pkA"; "Endpoint = a.example.com:51820"]);
   ("B.wg", text ["Address = 10.0.0.2/32"; "PublicKey = pkB"])].

(** Scenario 4: an unknown key. *)
Definition scenario4 : list (string * string) :=
  [("X.wg", text ["Address = 10.0.0.6/32"; "PublicKey = pkX"; "Foo = bar"]);
   ("Y.wg", text ["Address = 10.0.0.7/32"; "PublicKey = pkY"; "Endpoint = y:1"])].

(** Scenario 5: F splits its output. *)
Definition scenario5 : list (string * string) :=
  [("F.wg", text ["Address = 10.0.0.8/32"; "PublicKey = pkF"; "SplitFiles = true"]);
   ("G.wg", text ["Address = 10.0.0.9/32"; "PublicKey = pkG"; "Endpoint = g:1"]);
   ("H.wg", text ["Address = 10.0.0.10/32"; "PublicKey = pkH"; "Endpoint = h:1"])].

(** Node [a] splits and peers with [b]; a node is named [a:b]. *)
Definition collision_dir : list (string * string) :=
  [("a.wg", text ["Address = 10.0.1.1/32"; "PublicKey = pka"; "SplitFiles = true"; "ConnectTo = b"]);
   ("a:b.wg", text ["Address = 10.0.1.2/32"; "PublicKey = pkab"; "ConnectTo = b"]);
   ("b.wg", text ["Address = 10.0.1.3/32"; "PublicKey = pkb"; "Endpoint = b:1"])].

(** ** Witnesses of the program-level theorems *)

Definition inherited_dir : list (string * string) :=
  [("x.wg", text ["Address = 10.0.4.1/32"; "toString = 1"; "PublicKey = pkx"]);
   ("y.wg", text ["Foo = 2"])].

Lemma main_invalid_no_output_witness :
  diagnostics scenario4 <> [] /\ outcome_writes (main scenario4) = [].
Proof.
  split; [vm_compute; discriminate|]. apply main_invalid_no_output. vm_compute. discriminate.
Defined.

Lemma main_reports_all_witness :
  dir_proto_free scenario4 /\ main scenario4 = Exited (-1) (diagnostics scenario4).
Proof.
  split; [vm_compute; reflexivity|].
  apply main_reports_all; [vm_compute; reflexivity|vm_compute; discriminate].
Defined.

Lemma main_inherited_key_crashes_witness :
  ~ dir_proto_free inherited_dir /\
  exists pre file content post lpre line lpost k r,
    inherited_dir = pre ++ (file, content) :: post /\ ends_with ".wg" file = true /\
    dir_proto_free pre /\ split_lines content = lpre ++ line :: lpost /\ proto_free lpre /\
    line_entry line = Some (k, r) /\ k ∈ object_prototype_keys /\
    main inherited_dir = Crashed (diagnostics pre ++ unknown_warnings file lpre ++
                                  [k +:+ " in " +:+ file +:+ " is unfamiliar"]) [].
Proof.
  split; [vm_compute; discriminate|]. apply main_inherited_key_crashes. vm_compute. discriminate.
Defined.

(** The crash of [inherited_dir]: the warning for [toString] in [x.wg]
    is printed, the unknown key [Foo] of [y.wg] never is. *)
Example inherited_dir_log : main inherited_dir = Crashed ["toString in x.wg is unfamiliar"] [].
Proof. vm_compute. reflexivity. Qed.

Lemma main_valid_completes_witness :
  diagnostics scenario1 = [] /\
  exists nodes ws,
    load_nodes scenario1 = Continue {| ld_nodes := nodes; ld_log := []; ld_err := false |} /\
    registry_spec nodes scenario1 /\
    render_reference nodes = Ret ws /\
    main scenario1 = Completed [] ws.
Proof. split; [vm_compute; reflexivity|]. apply main_valid_completes. vm_compute. reflexivity. Defined.

Lemma main_configures_every_node_witness :
  diagnostics scenario5 = [] /\
  exists nodes ws,
    load_nodes scenario5 = Continue {| ld_nodes := nodes; ld_log := []; ld_err := false |} /\
    main scenario5 = Completed [] ws /\
    forall A a, (A, a) ∈ nodes ->
      exists iface secs,
        render_iface a = Ret iface /\ node_sections nodes A a = Ret secs /\
        Forall (fun w => w ∈ ws) (node_output A a iface secs).
Proof. split; [vm_compute; reflexivity|]. apply main_configures_every_node. vm_compute. reflexivity. Defined.

Lemma main_writes_bound_witness :
  diagnostics scenario5 = [] /\
  exists nodes ws,
    load_nodes scenario5 = Continue {| ld_nodes := nodes; ld_log := []; ld_err := false |} /\
    main scenario5 = Completed [] ws /\
    List.length ws <= List.length nodes * Nat.max 1 (List.length nodes - 1).
Proof. split; [vm_compute; reflexivity|]. apply main_writes_bound. vm_compute. reflexivity. Defined.

(** In [collision_dir] the hypotheses of the collision hold for [a], [b]
    and [a:b]: three writes leave two files. *)
Lemma main_output_collision_witness :
  diagnostics collision_dir = [] /\
  exists nodes ws,
    load_nodes collision_dir = Continue {| ld_nodes := nodes; ld_log := []; ld_err := false |} /\
    main collision_dir = Completed [] ws /\
    size (output_files ws) < List.length ws.
Proof.
  split; [vm_compute; reflexivity|].
  destruct (main_output_collision collision_dir) as (nodes & ws & Hrun & Hmain & Hcol);
    [vm_compute; reflexivity|].
  exists nodes, ws. do 2 (split; [done|]).
  vm_compute in Hrun. injection Hrun as <-.
  eapply (Hcol "a" _ "b" _ _);
    try (repeat (first [apply list_elem_of_here | apply list_elem_of_further]));
    vm_compute; reflexivity.
Defined.
